(** * project2context.js: the directory walk, its filters and its output

    A shallow embedding of [src/project2context.js].  The script walks a
    project directory twice (a tree pass and a content pass) and writes one
    text artifact; the definitions below follow the script function by
    function and keep its names. *)

From Stdlib Require Import List String Ascii ZArith Lia Bool Arith.
From Stdlib Require Import Sorting.Sorted Sorting.Permutation.
From Stdlib Require Import Structures.OrdersEx Classes.RelationClasses.
Import ListNotations.

Local Open Scope string_scope.
Local Open Scope list_scope.
Local Open Scope Z_scope.

(** ** Data *)

(** A JavaScript string holding file content: its UTF-16 code units. *)
Definition jsstring := list Z.

(** A path, as its components; [path.join(dir, name)] appends one. *)
Definition path := list string.

Definition join (dir : path) (name : string) : path := (dir ++ [name])%list.

(** [path.basename]: the last component. *)
Definition basename (p : path) : string := last p "".

(** [path.relative(from, to)] where [to] lies below [from]. *)
Definition relative (from to : path) : path := skipn (List.length from) to.

(** The outcome of a call into [fs]: a value, or a thrown error with its
    message. *)
Inductive io (A : Type) : Type :=
| Done (a : A)
| Throw (message : string).
Arguments Done {A} a.
Arguments Throw {A} message.

(** What the script can observe of one file.  It reads a file with three
    different calls, each of which may fail on its own and, when the file
    changes under the walk, may see bytes of its own: [f_sniff] is the
    [readFileSync] of [isTextFile] (the same for the tree pass and the
    content pass), [f_probe] the [openSync]/[readSync] of [getFileEncoding],
    [f_read] the [readFileSync] of [walkDir] (the raw bytes, before
    decoding). *)
Record file : Type := mkFile {
  f_sniff : io (list Z);
  f_probe : io (list Z);
  f_read  : io (list Z)
}.

(** A file whose bytes are [bs] at every access. *)
Definition stableFile (bs : list Z) : file := mkFile (Done bs) (Done bs) (Done bs).

(** A file no access can read. *)
Definition unreadableFile (msg : string) : file :=
  mkFile (Throw msg) (Throw msg) (Throw msg).

(** The file system below a path.  [Dir l] carries the outcome of
    [readdirSync] on the directory; [Other] is an entry that is neither
    [isDirectory()] nor [isFile()] (a symbolic link, a socket, ...), with
    what reading through it yields. *)
#[local] Unset Elimination Schemes.
Inductive node : Type :=
| File (f : file)
| Dir (listing : io (list (string * node)))
| Other (f : file).
#[local] Set Elimination Schemes.

Definition isDirectory (n : node) : bool :=
  match n with Dir _ => true | _ => false end.

Definition isFile (n : node) : bool :=
  match n with File _ => true | _ => false end.

(** What reading the entry as a file observes. *)
Definition fileOf (n : node) : file :=
  match n with
  | File f | Other f => f
  | Dir _ => unreadableFile "EISDIR: illegal operation on a directory, read"
  end.

(** [fs.readdirSync(p, { withFileTypes: true })]. *)
Definition readdirSync (n : node) : io (list (string * node)) :=
  match n with
  | Dir listing => listing
  | _ => Throw "ENOTDIR: not a directory, scandir"
  end.

(** The Node runtime the script runs in: the process ([argv], [cwd]) and the
    library functions whose result depends on Unicode tables, the locale or
    the Node version. *)
Record runtime : Type := mkRuntime {
  argv : list path;
  cwd : path;
  toLowerCase : string -> string;
  localeCompare : string -> string -> Z;
  decode : string -> list Z -> jsstring;
  encodingError : string -> string
}.

(** ** Configuration *)

Definition has (s : list string) (x : string) : bool := existsb (String.eqb x) s.
Arguments has : simpl never.

Definition EXCLUDED_DIRS : list string :=
  ["node_modules"; "venv"; ".git"; "__pycache__"; "build"; "dist"].

Definition EXCLUDED_FILES : list string :=
  ["package-lock.json"; "yarn.lock"; "project-context.txt"].

Definition TEXT_EXTENSIONS : list string :=
  [".txt"; ".md"; ".py"; ".js"; ".ts"; ".jsx"; ".tsx"; ".cpp"; ".h";
   ".hpp"; ".c"; ".cs"; ".java"; ".html"; ".css"; ".scss"; ".sass";
   ".json"; ".yml"; ".yaml"; ".xml"; ".env"; ".config"; ".dockerfile";
   ".sh"; ".bat"; ".ps1"].

Definition EXCLUDED_EXTENSIONS : list string :=
  [".svg"; ".png"; ".jpg"; ".jpeg"; ".gif"; ".ico"; ".pdf"; ".zip";
   ".tar"; ".gz"; ".rar"; ".exe"; ".dll"; ".pdb"; ".pyc"].

(** ** [path.extname] *)

(** Index of the last ["."] of [s], counting from [i]. *)
Fixpoint lastDotFrom (i : nat) (s : string) : option nat :=
  match s with
  | EmptyString => None
  | String c r =>
      match lastDotFrom (S i) r with
      | Some j => Some j
      | None => if Ascii.eqb c "."%char then Some i else None
      end
  end.

(** [path.extname]: the last component from its last dot on; empty when
    there is no dot, when the only dot is the first character, and for
    [".."]. *)
Definition extname (p : path) : string :=
  let b := basename p in
  match lastDotFrom 0 b with
  | None => ""
  | Some i =>
      if Nat.eqb i 0 || String.eqb b ".." then ""
      else substring i (String.length b - i) b
  end.

(** ** The helpers of the script *)

Section Script.

Variable rt : runtime.

(** [getScriptName]: [path.basename(process.argv[1])]. *)
Definition getScriptName : string := basename (nth 1 (argv rt) []).

(** [isTextFile]: no null byte among the first 1024 bytes; [false] when the
    read throws. *)
Definition isTextFile (f : file) : bool :=
  match f_sniff f with
  | Done bytes =>
      let buffer := firstn 1024 bytes in
      negb (existsb (Z.eqb 0) buffer)
  | Throw _ => false
  end.

(** The four-byte buffer of [getFileEncoding]: [Buffer.alloc(4)] is zero
    filled and [readSync] overwrites as many bytes as the file has. *)
Definition probeBuffer (bytes : list Z) : list Z :=
  firstn 4 (bytes ++ [0; 0; 0; 0]).

Definition at_ (buffer : list Z) (i : nat) : Z := nth i buffer 0.

(** [getFileEncoding]. *)
Definition getFileEncoding (f : file) : string :=
  match f_probe f with
  | Done bytes =>
      let buffer := probeBuffer bytes in
      if (at_ buffer 0 =? 0xEF) && (at_ buffer 1 =? 0xBB) && (at_ buffer 2 =? 0xBF)
      then "utf8"
      else if (at_ buffer 0 =? 0xFF) && (at_ buffer 1 =? 0xFE)
              || (at_ buffer 0 =? 0xFE) && (at_ buffer 1 =? 0xFF)
      then "utf16le"
      else if ((at_ buffer 0 =? 0xFF) && (at_ buffer 1 =? 0xFE)
                 && (at_ buffer 2 =? 0x00) && (at_ buffer 3 =? 0x00))
              || ((at_ buffer 0 =? 0x00) && (at_ buffer 1 =? 0x00)
                    && (at_ buffer 2 =? 0xFE) && (at_ buffer 3 =? 0xFF))
      then "utf32le"
      else "utf8"
  | Throw _ => "utf8"
  end.

(** The class [\s] of JavaScript regular expressions. *)
Definition isWhitespace (c : Z) : bool :=
  (9 <=? c) && (c <=? 13) || (c =? 32) || (c =? 0xA0) || (c =? 0x1680)
  || (0x2000 <=? c) && (c <=? 0x200A)
  || (c =? 0x2028) || (c =? 0x2029) || (c =? 0x202F) || (c =? 0x205F)
  || (c =? 0x3000) || (c =? 0xFEFF).

(** The class [[a-zA-Z0-9\s]]. *)
Definition isPlain (c : Z) : bool :=
  (97 <=? c) && (c <=? 122) || (65 <=? c) && (c <=? 90)
  || (48 <=? c) && (c <=? 57) || isWhitespace c.

(** [text.split(/\s+/)]: [cur] is the segment being read, reversed;
    [inRun] tells that the previous unit was whitespace, so that a run of
    whitespace separates once. *)
Fixpoint splitFrom (cur : jsstring) (inRun : bool) (text : jsstring)
  : list jsstring :=
  match text with
  | [] => [rev cur]
  | c :: rest =>
      if isWhitespace c
      then if inRun then splitFrom cur true rest
           else rev cur :: splitFrom [] true rest
      else splitFrom (c :: cur) false rest
  end.

Definition splitWhitespace (text : jsstring) : list jsstring :=
  splitFrom [] false text.

(** [estimateTokens]. *)
Definition estimateTokens (text : jsstring) : Z :=
  let words := Z.of_nat (List.length (splitWhitespace text)) in
  let specialChars := Z.of_nat (List.length (filter (fun c => negb (isPlain c)) text)) in
  words + specialChars + words / 4.

(** [shouldProcessFile]. *)
Definition shouldProcessFile (filePath : path) (f : file) : bool :=
  let fileName := basename filePath in
  let extension := toLowerCase rt (extname filePath) in
  if String.eqb fileName getScriptName then false
  else if has EXCLUDED_FILES fileName then false
  else if has EXCLUDED_EXTENSIONS extension then false
  else if negb (has TEXT_EXTENSIONS extension || String.eqb extension "") then false
  else isTextFile f.

End Script.

(** ** The output stream and the counters *)

Definition nl : string := String (ascii_of_nat 10) "".
Definition dq : string := String (ascii_of_nat 34) "".

(** One call of [outputFile.write], with the values it interpolates, or the
    closing [outputFile.end()]. *)
Inductive item : Type :=
| Literal (text : string)
| GeneratedAt (baseName : string)
| TreeDir (prefix baseName : string)
| TreeDenied (prefix : string)
| TreeFile (currentPrefix : string) (startPath : path) (name : string)
| FileOpen (relPath : path)
| FileContent (content : jsstring)
| FileClose
| ErrorBlock (relPath : path) (message : string)
| StreamEnd.

(** What reaches the stream: text of the script, or decoded file content. *)
Inductive chunk : Type :=
| Text (s : string)
| Raw (content : jsstring).

Definition showPath (p : path) : string := String.concat "/" p.

(** The text of each write, as the template literals of the script give it. *)
Definition render (i : item) : chunk :=
  match i with
  | Literal text => Text text
  | GeneratedAt baseName =>
      Text ("<generated_at>" ++ baseName ++ "</generated_at>" ++ nl ++ nl)
  | TreeDir prefix baseName => Text (prefix ++ baseName ++ "/" ++ nl)
  | TreeDenied prefix => Text (prefix ++ "[ACCESS DENIED]" ++ nl)
  | TreeFile currentPrefix _ name => Text (currentPrefix ++ name ++ nl)
  | FileOpen relPath =>
      Text (nl ++ "<file path=" ++ dq ++ showPath relPath ++ dq ++ ">" ++ nl)
  | FileContent content => Raw content
  | FileClose => Text (nl ++ "</file>" ++ nl)
  | ErrorBlock relPath message =>
      Text (nl ++ "<error file=" ++ dq ++ showPath relPath ++ dq ++ ">"
               ++ message ++ "</error>" ++ nl)
  | StreamEnd => Text ""
  end.

(** The variables [processDirectory] closes over. *)
Record state : Type := mkState {
  output : list item;
  totalLines : Z;
  totalTokens : Z;
  fileCount : Z
}.

Definition write (its : list item) (st : state) : state :=
  mkState (output st ++ its) (totalLines st) (totalTokens st) (fileCount st).

(** A computation over the state that returns or throws; what was written
    before a throw stays written. *)
Definition M (A : Type) : Type := state -> io A * state.

Definition ret {A} (a : A) : M A := fun st => (Done a, st).

Definition throw {A} (message : string) : M A := fun st => (Throw message, st).

Definition bind {A B} (m : M A) (k : A -> M B) : M B :=
  fun st =>
    match m st with
    | (Done a, st') => k a st'
    | (Throw message, st') => (Throw message, st')
    end.

Notation "m1 ;; m2" := (bind m1 (fun _ => m2))
  (at level 61, right associativity).

(** ** [Array.prototype.sort] *)

(** The sort of Node is stable; with a comparator that orders consistently
    every stable sort returns the list computed here.  [cmp a b <= 0] keeps
    [a] before [b]. *)
Fixpoint insertBy {A} (cmp : A -> A -> Z) (x : A) (l : list A) : list A :=
  match l with
  | [] => [x]
  | y :: r => if cmp x y <=? 0 then x :: l else y :: insertBy cmp x r
  end.

Fixpoint sortBy {A} (cmp : A -> A -> Z) (l : list A) : list A :=
  match l with
  | [] => []
  | x :: r => insertBy cmp x (sortBy cmp r)
  end.

(** [Buffer.isEncoding], on lower-case names. *)
Definition isEncoding (encoding : string) : bool :=
  has ["utf8"; "utf-8"; "ucs2"; "ucs-2"; "utf16le"; "utf-16le"; "latin1";
       "binary"; "base64"; "base64url"; "hex"; "ascii"] encoding.

Section Walk.

Variable rt : runtime.

(** [fs.readFileSync(filePath, { encoding })]: the encoding is validated
    before the file is opened. *)
Definition readFileSync (f : file) (encoding : string) : io jsstring :=
  if isEncoding encoding then
    match f_read f with
    | Done bytes => Done (decode rt encoding bytes)
    | Throw message => Throw message
    end
  else Throw (encodingError rt encoding).

(** The comparator of the tree pass. *)
Definition compareItems (a b : string * node) : Z :=
  if isDirectory (snd a) && negb (isDirectory (snd b)) then -1
  else if negb (isDirectory (snd a)) && isDirectory (snd b) then 1
  else localeCompare rt (toLowerCase rt (fst a)) (toLowerCase rt (fst b)).

(** The comparator of the content pass. *)
Definition compareNames (a b : string) : Z :=
  localeCompare rt (toLowerCase rt a) (toLowerCase rt b).

(** *** The tree pass *)

Section TreeLoop.

(** The loop of [generateTree] over the sorted [items].  [entry x] is the
    directory entry of [x] with the node at its path, [recurse x] the call
    [generateTree(path.join(startPath, item.name), outputFile, _)]. *)
Variable X : Type.
Variable entry : X -> string * node.
Variable recurse : X -> string -> list item.
Variable startPath : path.
Variable prefix : string.

Fixpoint treeLoop (len i : nat) (items : list X) : list item :=
  match items with
  | [] => []
  | x :: rest =>
      let item := entry x in
      let isLast := Nat.eqb i (len - 1) in
      let currentPrefix := (prefix ++ (if isLast then "└─ " else "├─ "))%string in
      let nextPrefix := (prefix ++ (if isLast then "   " else "│  "))%string in
      (if isDirectory (snd item) then
         if negb (has EXCLUDED_DIRS (fst item)) then recurse x nextPrefix
         else []
       else
         let itemPath := join startPath (fst item) in
         if shouldProcessFile rt itemPath (fileOf (snd item))
         then [TreeFile currentPrefix startPath (fst item)]
         else [])
      ++ treeLoop len (S i) rest
  end.

End TreeLoop.

(** [generateTree].  The recursion is on the file system below [startPath]:
    every entry of the listing is paired with the recursive call on its own
    subtree before the listing is sorted, so that the loop finds the call
    next to each sorted item ([generateTree_script] below gives the equation
    in the shape of the script).  Anything that is not a listable directory
    makes [readdirSync] throw. *)
Fixpoint generateTree (startPath : path) (n : node) (prefix : string)
  {struct n} : list item :=
  let baseName := basename startPath in
  if has EXCLUDED_DIRS baseName then []
  else
    TreeDir prefix baseName ::
    match n with
    | Dir (Done entries) =>
        let items :=
          sortBy (fun a b => compareItems (fst a) (fst b))
            (map (fun e => (e, generateTree (join startPath (fst e)) (snd e)))
               entries) in
        treeLoop _ fst snd startPath prefix (List.length items) 0 items
    | _ => [TreeDenied prefix]
    end.

(** *** The content pass *)

Definition countNewlines (content : jsstring) : Z :=
  Z.of_nat (List.length (filter (Z.eqb 10) content)).

(** The body of the loop over [files] in [walkDir].  Nothing escapes it:
    the calls that can throw are inside the [try]. *)
Definition processFile (startPath dir : path) (file : string * file)
  (st : state) : state :=
  let filePath := join dir (fst file) in
  if shouldProcessFile rt filePath (snd file) then
    let encoding := getFileEncoding (snd file) in
    match readFileSync (snd file) encoding with
    | Done content =>
        let relPath := relative startPath filePath in
        mkState (output st ++ [FileOpen relPath; FileContent content; FileClose])
                (totalLines st + (countNewlines content + 1))
                (totalTokens st + estimateTokens content)
                (fileCount st + 1)
    | Throw message =>
        let relPath := relative startPath filePath in
        write [ErrorBlock relPath message] st
    end
  else st.

Fixpoint forFiles (startPath dir : path) (files : list (string * file))
  (st : state) : state :=
  match files with
  | [] => st
  | file :: rest => forFiles startPath dir rest (processFile startPath dir file st)
  end.

(** The loop over [dirs] in [walkDir]; each element carries its call. *)
Fixpoint forDirs {X} (recurse : X -> M unit) (dirs : list X) : M unit :=
  match dirs with
  | [] => ret tt
  | subdir :: rest => recurse subdir ;; forDirs recurse rest
  end.

(** The [files] of [walkDir]: names of the [isFile()] entries, sorted, each
    with the file at [path.join(dir, file)]. *)
Definition filesOf (entries : list (string * node)) : list (string * file) :=
  sortBy (fun a b => compareNames (fst a) (fst b))
    (map (fun e => (fst e, fileOf (snd e)))
       (filter (fun e => isFile (snd e)) entries)).

(** [walkDir], the closure inside [processDirectory]; [startPath] is the
    variable it captures.  As in [generateTree] every entry is paired with
    the recursive call on its subtree before the filters run
    ([walkDir_script] gives the equation in the shape of the script).  The
    [readdirSync] at its head is not guarded. *)
Fixpoint walkDir (startPath dir : path) (n : node) {struct n} : M unit :=
  match n with
  | Dir (Done entries) =>
      let dirs :=
        filter (fun x => negb (has EXCLUDED_DIRS (fst (fst x))))
          (filter (fun x => isDirectory (snd (fst x)))
             (map (fun e => (e, walkDir startPath (join dir (fst e)) (snd e)))
                entries)) in
      let files := filesOf entries in
      fun st => forDirs snd dirs (forFiles startPath dir files st)
  | Dir (Throw message) => throw message
  | _ => throw "ENOTDIR: not a directory, scandir"
  end.

(** The result of a run: the counters, when the walk returned. *)
Record summary : Type := mkSummary {
  s_fileCount : Z;
  s_totalLines : Z;
  s_totalTokens : Z
}.

(** [processDirectory]: what it returns or throws, and what it wrote. *)
Definition processDirectory (startPath : path) (root : node)
  : io summary * list item :=
  let st0 := mkState [] 0 0 0 in
  let st1 := write [Literal ("<project_overview>" ++ nl);
                    GeneratedAt (basename startPath)] st0 in
  let st2 := write [Literal ("<directory_structure>" ++ nl)] st1 in
  let st3 := write (generateTree startPath root "") st2 in
  let st4 := write [Literal ("</directory_structure>" ++ nl ++ nl)] st3 in
  let st5 := write [Literal ("<file_contents>" ++ nl)] st4 in
  match walkDir startPath startPath root st5 with
  | (Done _, st6) =>
      let st7 := write [Literal ("</file_contents>" ++ nl);
                        Literal "</project_overview>"; StreamEnd] st6 in
      (Done (mkSummary (fileCount st7) (totalLines st7) (totalTokens st7)),
       output st7)
  | (Throw message, st6) => (Throw message, output st6)
  end.

(** A line on the console. *)
Inductive console : Type :=
| Log (text : string)
| LogNumber (label : string) (value : Z)
| LogError (text : string).

(** The main block: [root] is the directory at [process.cwd()]. *)
Definition main (root : node) : list console * list item :=
  let currentDir := cwd rt in
  let outputFile := "project-context.txt" in
  match processDirectory currentDir root with
  | (Done s, out) =>
      ([Log (nl ++ "Project Context Generation Complete");
        Log ("Output file: " ++ outputFile);
        LogNumber "Files processed: " (s_fileCount s);
        LogNumber "Total lines: " (s_totalLines s);
        LogNumber "Estimated tokens: " (s_totalTokens s)], out)
  | (Throw message, out) => ([LogError ("Error: " ++ message)], out)
  end.

End Walk.

(** ** A runtime to run the script on examples

    Lower-casing of ASCII letters, comparison by character code and
    byte-per-unit decoding: what Node computes on ASCII names and ASCII
    content. *)

Definition lowerAscii (c : ascii) : ascii :=
  let n := nat_of_ascii c in
  if Nat.leb 65 n && Nat.leb n 90 then ascii_of_nat (n + 32) else c.

Fixpoint lowerString (s : string) : string :=
  match s with
  | EmptyString => EmptyString
  | String c r => String (lowerAscii c) (lowerString r)
  end.

Definition codeCompare (a b : string) : Z :=
  match String_as_OT.compare a b with
  | Lt => -1
  | Eq => 0
  | Gt => 1
  end.

Definition nodeRuntime (argv : list path) (cwd : path) : runtime :=
  mkRuntime argv cwd lowerString codeCompare
    (fun _ bytes => bytes)
    (fun encoding => ("Unknown encoding: " ++ encoding)%string).

(** ASCII text as code units. *)
Definition js (s : string) : jsstring :=
  map (fun c => Z.of_nat (nat_of_ascii c)) (list_ascii_of_string s).

(** [node /home/proj/project2context.js], run in [/home/proj]. *)
Definition exampleRuntime : runtime :=
  nodeRuntime [["usr"; "bin"; "node"]; ["home"; "proj"; "project2context.js"]]
    ["home"; "proj"].

(** A readable file holding the ASCII text [s]. *)
Definition textFile (s : string) : node := File (stableFile (js s)).

(** The counters and the stream before anything is written. *)
Definition emptyState : state := mkState [] 0 0 0.

(** ** Vocabulary of the statements *)

(** The relation the sort establishes between neighbours. *)
Definition before {A} (cmp : A -> A -> Z) (a b : A) : Prop := cmp a b <= 0.

(** The [dirs] of [walkDir]: directories that are not excluded, in listing
    order. *)
Definition dirsOf (entries : list (string * node)) : list (string * node) :=
  filter (fun e => negb (has EXCLUDED_DIRS (fst e)))
    (filter (fun e => isDirectory (snd e)) entries).

(** The number of maximal runs of whitespace in [text]; [prev] tells that
    the unit before [text] was whitespace. *)
Fixpoint whitespaceRuns (prev : bool) (text : jsstring) : nat :=
  match text with
  | [] => 0
  | c :: rest =>
      if isWhitespace c
      then (if prev then 0 else 1) + whitespaceRuns true rest
      else whitespaceRuns false rest
  end.

Definition isAsciiLetter (c : Z) : bool :=
  (65 <=? c) && (c <=? 90) || (97 <=? c) && (c <=? 122).

Definition isDigit (c : Z) : bool := (48 <=? c) && (c <=? 57).

(** A special character: not an ASCII letter, not a digit, not whitespace. *)
Definition isSpecial (c : Z) : bool :=
  negb (isAsciiLetter c || isDigit c || isWhitespace c).

(** Segments joined again, with the separators that were between them. *)
Fixpoint interleave (segments separators : list jsstring) : jsstring :=
  match segments with
  | [] => []
  | s :: segments' =>
      match separators with
      | [] => s
      | w :: separators' => s ++ w ++ interleave segments' separators'
      end
  end.

(** The whitespace [text] starts with, and what follows it. *)
Fixpoint takeWhitespace (text : jsstring) : jsstring :=
  match text with
  | c :: rest => if isWhitespace c then c :: takeWhitespace rest else []
  | [] => []
  end.

Fixpoint dropWhitespace (text : jsstring) : jsstring :=
  match text with
  | c :: rest => if isWhitespace c then dropWhitespace rest else text
  | [] => []
  end.

(** A segment of a split, and a separator between two segments. *)
Definition noWhitespace (s : jsstring) : Prop :=
  forallb (fun c => negb (isWhitespace c)) s = true.

Definition separator (w : jsstring) : Prop :=
  w <> [] /\ forallb isWhitespace w = true.

(** A null byte among the first 1024 bytes. *)
Definition nullInPrefix (bytes : list Z) : Prop :=
  exists i, (i < 1024)%nat /\ nth_error bytes i = Some 0.

(** The classification as the specification words it, on the first bytes
    of the file: EF BB BF is UTF-8, the four bytes FF FE 00 00 are UTF-32,
    the two-byte signatures FF FE and FE FF are UTF-16, and every other
    prefix is UTF-8. *)
Definition specifiedEncoding (bytes : list Z) : string :=
  if list_eq_dec Z.eq_dec (firstn 3 bytes) [0xEF; 0xBB; 0xBF] then "utf8"
  else if list_eq_dec Z.eq_dec (firstn 4 bytes) [0xFF; 0xFE; 0x00; 0x00] then "utf32le"
  else if list_eq_dec Z.eq_dec (firstn 2 bytes) [0xFF; 0xFE] then "utf16le"
  else if list_eq_dec Z.eq_dec (firstn 2 bytes) [0xFE; 0xFF] then "utf16le"
  else "utf8".

(** The comparison of two entries by their lower-cased names alone. *)
Definition compareEntryNames (rt : runtime) (a b : string * node) : Z :=
  compareNames rt (fst a) (fst b).

Definition isDirEntry (e : string * node) : bool := isDirectory (snd e).

(** [a] is not after [b] in the alphabet, letter case left aside. *)
Definition nameBefore (rt : runtime) (a b : string * node) : Prop :=
  localeCompare rt (toLowerCase rt (fst a)) (toLowerCase rt (fst b)) <= 0.

(** The relative paths of the file and error blocks among [its]. *)
Definition contentPaths (its : list item) : list path :=
  flat_map (fun i => match i with
                     | FileOpen relPath => [relPath]
                     | ErrorBlock relPath _ => [relPath]
                     | _ => []
                     end) its.

(** The paths of the files listed in the tree among [its]. *)
Definition treePaths (its : list item) : list path :=
  flat_map (fun i => match i with
                     | TreeFile _ startPath name => [join startPath name]
                     | _ => []
                     end) its.

(** [p] is a file reached from [dir] through directories that are not
    excluded. *)
Definition reachedFrom (dir p : path) : Prop :=
  exists sub name,
    p = dir ++ sub ++ [name] /\ Forall (fun d => has EXCLUDED_DIRS d = false) sub.

(** The writes of the content pass, and those of the tree pass. *)
Definition blockItem (i : item) : Prop :=
  match i with
  | FileOpen _ | FileContent _ | FileClose | ErrorBlock _ _ => True
  | _ => False
  end.

Definition treeItem (i : item) : Prop :=
  match i with
  | TreeDir _ _ | TreeDenied _ | TreeFile _ _ _ => True
  | _ => False
  end.

(** What a computation appends, whether it returns or throws: blocks, for
    paths in [R]. *)
Definition appends (R : path -> Prop) (m : M unit) : Prop :=
  forall st, exists new,
    output (snd (m st)) = output st ++ new /\
    Forall R (contentPaths new) /\
    Forall blockItem new.

(** A directory whose listing fails lies in the part of [n] the content
    pass walks. *)
Inductive deniedBelow : node -> Prop :=
| denied_here (message : string) : deniedBelow (Dir (Throw message))
| denied_under (entries : list (string * node)) (name : string) (child : node) :
    In (name, child) entries ->
    has EXCLUDED_DIRS name = false ->
    deniedBelow child ->
    deniedBelow (Dir (Done entries)).

(** A computation that throws from every state. *)
Definition throws (m : M unit) : Prop :=
  forall st, exists message st', m st = (Throw message, st').

(** The node at a path below [n]. *)
Fixpoint resolve (n : node) (rel : path) : option node :=
  match rel with
  | [] => Some n
  | name :: rest =>
      match n with
      | Dir (Done entries) =>
          match find (fun e => String.eqb (fst e) name) entries with
          | Some e => resolve (snd e) rest
          | None => None
          end
      | _ => None
      end
  end.

(** ** Vocabulary of the further statements *)

(** The decoded contents written to the stream, in order. *)
Definition contents (its : list item) : list jsstring :=
  flat_map (fun i => match i with FileContent content => [content] | _ => [] end) its.

(** The lines and the tokens the counters hold for a list of contents. *)
Definition sumLines (cs : list jsstring) : Z :=
  fold_right (fun c acc => (countNewlines c + 1) + acc) 0 cs.

Definition sumTokens (cs : list jsstring) : Z :=
  fold_right (fun c acc => estimateTokens c + acc) 0 cs.

(** The counters agree with what the stream holds. *)
Definition counted (st : state) : Prop :=
  fileCount st = Z.of_nat (List.length (contents (output st))) /\
  totalLines st = sumLines (contents (output st)) /\
  totalTokens st = sumTokens (contents (output st)).

(** A content section made of whole blocks. *)
Inductive wholeBlocks : list item -> Prop :=
| blocks_nil : wholeBlocks []
| blocks_file (relPath : path) (content : jsstring) (rest : list item) :
    wholeBlocks rest ->
    wholeBlocks (FileOpen relPath :: FileContent content :: FileClose :: rest)
| blocks_error (relPath : path) (message : string) (rest : list item) :
    wholeBlocks rest ->
    wholeBlocks (ErrorBlock relPath message :: rest).

(** Every directory the content pass walks from [n] can be listed. *)
Fixpoint walkable (n : node) : bool :=
  match n with
  | Dir (Done entries) =>
      forallb (fun e => if isDirectory (snd e) && negb (has EXCLUDED_DIRS (fst e))
                        then walkable (snd e) else true) entries
  | _ => false
  end.

(** [leaf] is an entry at path [p] that is not a directory, passes
    [shouldProcessFile] and is reached from the directory [n] at [dir]
    through directories that list and are not excluded. *)
Inductive visible (rt : runtime) : path -> node -> path -> node -> Prop :=
| visible_entry (dir : path) (entries : list (string * node)) (name : string)
    (child : node) :
    In (name, child) entries ->
    isDirectory child = false ->
    shouldProcessFile rt (join dir name) (fileOf child) = true ->
    visible rt dir (Dir (Done entries)) (join dir name) child
| visible_below (dir : path) (entries : list (string * node)) (name : string)
    (child : node) (p : path) (leaf : node) :
    In (name, child) entries ->
    isDirectory child = true ->
    has EXCLUDED_DIRS name = false ->
    visible rt (join dir name) child p leaf ->
    visible rt dir (Dir (Done entries)) p leaf.

(** What a computation appends to the stream: blocks for the paths in [S],
    all of them when it returns. *)
Definition emits (S : path -> Prop) (m : M unit) : Prop :=
  forall st, exists new,
    output (snd (m st)) = output st ++ new /\
    (forall q, In q (contentPaths new) -> S q) /\
    (fst (m st) = Done tt -> forall q, S q -> In q (contentPaths new)).

(** A computation that keeps [counted] and appends whole blocks. *)
Definition accounts (m : M unit) : Prop :=
  forall st, exists new,
    output (snd (m st)) = output st ++ new /\
    wholeBlocks new /\
    (counted st -> counted (snd (m st))).

(** A name with a dot in it. *)
Fixpoint hasDot (s : string) : bool :=
  match s with
  | EmptyString => false
  | String c r => Ascii.eqb c "."%char || hasDot r
  end.

(** ** Inputs of the examples *)

(** The three siblings of the ordering example, and the orders in which
    [readdirSync] may list them. *)
Definition siblings : list (string * node) :=
  [("zeta", Dir (Done [])); ("Apple.txt", textFile "a"); ("banana.txt", textFile "b")].

Definition siblingListings : list (list (string * node)) :=
  match siblings with
  | [z; a; b] => [[z; a; b]; [z; b; a]; [a; z; b]; [a; b; z]; [b; z; a]; [b; a; z]]
  | _ => []
  end.

(** A project in which [locked] cannot be listed and [src] can. *)
Definition lockedProject : node :=
  Dir (Done [("locked", Dir (Throw "EACCES: permission denied, scandir"));
             ("src", Dir (Done [("a.txt", textFile "hi")]))]).

(** A project with a file at its top and a subdirectory [frontend]. *)
Definition frontendProject : node :=
  Dir (Done [("README.md", textFile "readme");
             ("frontend", Dir (Done [("app.js", textFile "x")]))]).

(** A text file that can no longer be read when the content pass opens it. *)
Definition vanishingFile : file :=
  mkFile (Done (js "text")) (Done (js "text"))
    (Throw "EACCES: permission denied, open").

(** A file that shows text to the sniff and 00 00 FE FF to the probe: it
    was rewritten between the two reads. *)
Definition rewrittenFile : file :=
  mkFile (Done (js "text")) (Done [0x00; 0x00; 0xFE; 0xFF; 0x00; 0x00; 0x00; 0x41])
    (Done [0x00; 0x00; 0xFE; 0xFF; 0x00; 0x00; 0x00; 0x41]).

(** A project with a file that can no longer be read when the content pass
    opens it, a link, a file with an excluded extension, an excluded
    directory and a subdirectory. *)
Definition mixedProject : node :=
  Dir (Done [("b.txt", textFile "hello");
             ("gone.txt", File vanishingFile);
             ("link", Other (stableFile (js "x")));
             ("a.png", textFile "x");
             (".git", Dir (Done [("c.txt", textFile "c")]));
             ("src", Dir (Done [("m.js", textFile "m")]))]).

(** ** Induction on the file system *)

Section NodeInd.

Variable P : node -> Prop.
Hypothesis HFile : forall f, P (File f).
Hypothesis HOther : forall f, P (Other f).
Hypothesis HDenied : forall message, P (Dir (Throw message)).
Hypothesis HDir :
  forall entries, Forall (fun e => P (snd e)) entries -> P (Dir (Done entries)).

Fixpoint node_ind (n : node) : P n :=
  match n with
  | File f => HFile f
  | Other f => HOther f
  | Dir (Throw message) => HDenied message
  | Dir (Done entries) =>
      HDir entries
        ((fix all (l : list (string * node)) : Forall (fun e => P (snd e)) l :=
            match l with
            | [] => Forall_nil _
            | e :: r => Forall_cons e (node_ind (snd e)) (all r)
            end) entries)
  end.

End NodeInd.

(** ** The sort *)

Section SortFacts.

Context {A : Type}.
Variable cmp : A -> A -> Z.

Lemma insertBy_perm (x : A) (l : list A) : Permutation (x :: l) (insertBy cmp x l).
Proof.
  induction l as [|y r IH]; simpl.
  - apply Permutation_refl.
  - destruct (cmp x y <=? 0).
    + apply Permutation_refl.
    + eapply perm_trans; [apply perm_swap|]. now apply perm_skip.
Qed.

Lemma sortBy_perm (l : list A) : Permutation l (sortBy cmp l).
Proof.
  induction l as [|x r IH]; simpl.
  - constructor.
  - eapply perm_trans; [apply perm_skip, IH | apply insertBy_perm].
Qed.

Lemma sortBy_In (l : list A) (x : A) : In x (sortBy cmp l) <-> In x l.
Proof.
  split; intros H.
  - eapply Permutation_in; [apply Permutation_sym, sortBy_perm | exact H].
  - eapply Permutation_in; [apply sortBy_perm | exact H].
Qed.

Hypothesis cmp_total : forall a b, 0 < cmp a b -> cmp b a <= 0.
Hypothesis cmp_trans : forall a b c, cmp a b <= 0 -> cmp b c <= 0 -> cmp a c <= 0.

Lemma insertBy_sorted (x : A) (l : list A) :
  StronglySorted (before cmp) l -> StronglySorted (before cmp) (insertBy cmp x l).
Proof.
  induction 1 as [|y r Hs IH Hall]; simpl.
  - constructor; constructor.
  - destruct (Z.leb_spec (cmp x y) 0) as [Hle|Hgt].
    + constructor; [now constructor|].
      constructor; [exact Hle|].
      eapply Forall_impl; [|exact Hall].
      intros z Hz. unfold before in *. eauto.
    + constructor; [exact IH|].
      eapply Permutation_Forall; [apply insertBy_perm|].
      constructor; [|exact Hall].
      unfold before. auto.
Qed.

Lemma sortBy_sorted (l : list A) : StronglySorted (before cmp) (sortBy cmp l).
Proof.
  induction l as [|x r IH]; simpl.
  - constructor.
  - now apply insertBy_sorted.
Qed.

End SortFacts.

(** Sorting entries that carry extra data by a comparator that ignores it
    sorts the entries. *)
Lemma insertBy_decorate {A B} (cmp : A -> A -> Z) (g : A -> B) (x : A) (l : list A) :
  insertBy (fun a b => cmp (fst a) (fst b)) (x, g x) (map (fun e => (e, g e)) l)
  = map (fun e => (e, g e)) (insertBy cmp x l).
Proof.
  induction l as [|y r IH]; simpl; [reflexivity|].
  destruct (cmp x y <=? 0); simpl; [reflexivity|].
  now rewrite IH.
Qed.

Lemma sortBy_decorate {A B} (cmp : A -> A -> Z) (g : A -> B) (l : list A) :
  sortBy (fun a b => cmp (fst a) (fst b)) (map (fun e => (e, g e)) l)
  = map (fun e => (e, g e)) (sortBy cmp l).
Proof.
  induction l as [|x r IH]; simpl; [reflexivity|].
  now rewrite IH, insertBy_decorate.
Qed.

Lemma filter_decorate {A B} (p : A -> bool) (g : A -> B) (l : list A) :
  filter (fun x => p (fst x)) (map (fun e => (e, g e)) l)
  = map (fun e => (e, g e)) (filter p l).
Proof.
  induction l as [|x r IH]; simpl; [reflexivity|].
  destruct (p x); simpl; now rewrite IH.
Qed.

(** ** The recursion equations, in the shape of the script *)

Section Unfold.

Variable rt : runtime.

Lemma treeLoop_decorate (g : string * node -> string -> list item)
  (startPath : path) (prefix : string) (len i : nat) (l : list (string * node)) :
  treeLoop rt _ fst snd startPath prefix len i (map (fun e => (e, g e)) l)
  = treeLoop rt _ (fun e => e) g startPath prefix len i l.
Proof.
  revert i. induction l as [|x r IH]; intros i; simpl; [reflexivity|].
  now rewrite IH.
Qed.

(** [generateTree] on a directory that lists: the header line, then the
    loop over the sorted listing, recursing into each directory item. *)
Lemma generateTree_unfold (startPath : path) (entries : list (string * node))
  (prefix : string) :
  generateTree rt startPath (Dir (Done entries)) prefix =
  if has EXCLUDED_DIRS (basename startPath) then []
  else
    let items := sortBy (compareItems rt) entries in
    TreeDir prefix (basename startPath) ::
    treeLoop rt _ (fun e => e)
      (fun item => generateTree rt (join startPath (fst item)) (snd item))
      startPath prefix (List.length items) 0 items.
Proof.
  cbn [generateTree].
  destruct (has EXCLUDED_DIRS (basename startPath)); [reflexivity|].
  cbv zeta. f_equal.
  rewrite (sortBy_decorate (compareItems rt)
             (fun e => generateTree rt (join startPath (fst e)) (snd e))).
  rewrite length_map. apply treeLoop_decorate.
Qed.

Lemma forDirs_decorate (g : string * node -> M unit) (l : list (string * node)) :
  forDirs snd (map (fun e => (e, g e)) l) = forDirs g l.
Proof.
  induction l as [|x r IH]; simpl; [reflexivity|]. now rewrite IH.
Qed.

(** [walkDir] on a directory that lists: the files in sorted order, then
    the recursion into each of [dirs]. *)
Lemma walkDir_unfold (startPath dir : path) (entries : list (string * node))
  (st : state) :
  walkDir rt startPath dir (Dir (Done entries)) st =
  forDirs (fun subdir => walkDir rt startPath (join dir (fst subdir)) (snd subdir))
    (dirsOf entries)
    (forFiles rt startPath dir (filesOf rt entries) st).
Proof.
  cbn [walkDir]. unfold dirsOf.
  rewrite (filter_decorate (fun e => isDirectory (snd e))).
  rewrite (filter_decorate (fun e => negb (has EXCLUDED_DIRS (fst e)))).
  now rewrite forDirs_decorate.
Qed.

(** The two walks on any node, with the call of [readdirSync] at their
    head as the script has it: [generateTree] catches its error, [walkDir]
    lets it go. *)
Lemma generateTree_script (startPath : path) (n : node) (prefix : string) :
  generateTree rt startPath n prefix =
  if has EXCLUDED_DIRS (basename startPath) then []
  else
    TreeDir prefix (basename startPath) ::
    match readdirSync n with
    | Done entries =>
        let items := sortBy (compareItems rt) entries in
        treeLoop rt _ (fun e => e)
          (fun item => generateTree rt (join startPath (fst item)) (snd item))
          startPath prefix (List.length items) 0 items
    | Throw _ => [TreeDenied prefix]
    end.
Proof.
  destruct n as [f | [entries | message] | f];
    try (cbn [generateTree readdirSync];
         now destruct (has EXCLUDED_DIRS (basename startPath))).
  rewrite generateTree_unfold. reflexivity.
Qed.

Lemma walkDir_script (startPath dir : path) (n : node) (st : state) :
  walkDir rt startPath dir n st =
  match readdirSync n with
  | Done entries =>
      forDirs (fun subdir => walkDir rt startPath (join dir (fst subdir)) (snd subdir))
        (dirsOf entries)
        (forFiles rt startPath dir (filesOf rt entries) st)
  | Throw message => (Throw message, st)
  end.
Proof.
  destruct n as [f | [entries | message] | f]; try reflexivity.
  apply walkDir_unfold.
Qed.

End Unfold.

(** ** The token estimate *)

Lemma take_drop_whitespace (text : jsstring) :
  takeWhitespace text ++ dropWhitespace text = text.
Proof.
  induction text as [|c r IH]; simpl; [reflexivity|].
  destruct (isWhitespace c); simpl; [now rewrite IH | reflexivity].
Qed.

Lemma takeWhitespace_all (text : jsstring) :
  forallb isWhitespace (takeWhitespace text) = true.
Proof.
  induction text as [|c r IH]; simpl; [reflexivity|].
  destruct (isWhitespace c) eqn:E; simpl; [now rewrite E, IH | reflexivity].
Qed.

Lemma isSpecial_isPlain (c : Z) : isSpecial c = negb (isPlain c).
Proof.
  unfold isSpecial, isPlain, isAsciiLetter, isDigit.
  destruct ((97 <=? c) && (c <=? 122)), ((65 <=? c) && (c <=? 90)),
    ((48 <=? c) && (c <=? 57)), (isWhitespace c); reflexivity.
Qed.

Lemma splitFrom_length (text cur : jsstring) (inRun : bool) :
  List.length (splitFrom cur inRun text) = S (whitespaceRuns inRun text).
Proof.
  revert cur inRun. induction text as [|c r IH]; intros cur inRun; simpl.
  - reflexivity.
  - destruct (isWhitespace c), inRun; simpl; now rewrite IH.
Qed.

Lemma noWhitespace_rev_cons (c : Z) (cur : jsstring) :
  isWhitespace c = false -> noWhitespace (rev cur) -> noWhitespace (rev (c :: cur)).
Proof.
  unfold noWhitespace. intros Hc H. simpl.
  rewrite forallb_app, H. simpl. now rewrite Hc.
Qed.

(** What [splitFrom] returns: segments without whitespace that, joined by
    non-empty runs of whitespace, give back what was read. *)
Lemma splitFrom_segments (text cur : jsstring) (inRun : bool) :
  noWhitespace (rev cur) ->
  Forall noWhitespace (splitFrom cur inRun text) /\
  exists separators,
    Forall separator separators /\
    interleave (splitFrom cur inRun text) separators
    = rev cur ++ (if inRun then dropWhitespace text else text).
Proof.
  revert cur inRun. induction text as [|c r IH]; intros cur inRun Hcur.
  - simpl. split; [now constructor|].
    exists []. split; [constructor|].
    simpl. destruct inRun; now rewrite app_nil_r.
  - cbn [splitFrom dropWhitespace]. destruct (isWhitespace c) eqn:Hc.
    + destruct inRun.
      * apply (IH cur true Hcur).
      * destruct (IH [] true eq_refl) as [Hsegs [seps [Hseps Heq]]].
        split; [now constructor|].
        exists ((c :: takeWhitespace r) :: seps). split.
        -- constructor; [|exact Hseps]. split; [discriminate|].
           simpl. now rewrite Hc, takeWhitespace_all.
        -- cbn [interleave]. rewrite Heq. simpl.
           now rewrite take_drop_whitespace.
    + destruct (IH (c :: cur) false (noWhitespace_rev_cons c cur Hc Hcur))
        as [Hsegs [seps [Hseps Heq]]].
      split; [exact Hsegs|].
      exists seps. split; [exact Hseps|].
      rewrite Heq. simpl. rewrite <- app_assoc. simpl. now destruct inRun.
Qed.

(** C7: for every text, [estimateTokens] is words + specialChars +
    floor(words / 4), where words counts the segments of the split on runs
    of whitespace (one more than the number of runs; the segments hold no
    whitespace and joined by the runs give back the text) and specialChars
    counts the units that are not ASCII letters, digits or whitespace; and
    [estimateTokens("a b c")] is 3. *)
Theorem estimateTokens_formula (text : jsstring) :
  let segments := splitWhitespace text in
  let words := Z.of_nat (List.length segments) in
  let specialChars := Z.of_nat (List.length (filter isSpecial text)) in
  (Forall noWhitespace segments /\
   exists separators,
     Forall separator separators /\ interleave segments separators = text) /\
  words = 1 + Z.of_nat (whitespaceRuns false text) /\
  estimateTokens text = words + specialChars + words / 4 /\
  4 * (words / 4) <= words < 4 * (words / 4) + 4 /\
  estimateTokens (js "a b c") = 3.
Proof.
  cbv zeta. repeat split.
  - apply (splitFrom_segments text [] false eq_refl).
  - destruct (splitFrom_segments text [] false eq_refl) as [_ [seps [H1 H2]]].
    exists seps. split; [exact H1 | exact H2].
  - unfold splitWhitespace. rewrite splitFrom_length. lia.
  - unfold estimateTokens.
    rewrite (filter_ext isSpecial (fun c => negb (isPlain c)) isSpecial_isPlain).
    reflexivity.
  - apply Z.mul_div_le. lia.
  - pose proof (Z.mod_pos_bound (Z.of_nat (List.length (splitWhitespace text))) 4 ltac:(lia)).
    pose proof (Z.div_mod (Z.of_nat (List.length (splitWhitespace text))) 4 ltac:(lia)).
    lia.
Qed.

(** ** One file of the content pass *)

Section ProcessFile.

Variable rt : runtime.

(** C10: a file read with success whose decoded content is the empty string
    adds 1 to [totalLines] and 1 to [totalTokens] (and is counted): the
    split of the empty string has one, empty, segment, and the line count is
    the number of newlines plus one. *)
Theorem empty_content_counts (startPath dir : path) (name : string) (f : file)
  (st : state) :
  shouldProcessFile rt (join dir name) f = true ->
  readFileSync rt f (getFileEncoding f) = Done [] ->
  let st' := processFile rt startPath dir (name, f) st in
  totalLines st' = totalLines st + 1 /\
  totalTokens st' = totalTokens st + 1 /\
  fileCount st' = fileCount st + 1 /\
  splitWhitespace [] = [[]] /\
  countNewlines [] = 0 /\
  output st' = output st ++ [FileOpen (relative startPath (join dir name));
                             FileContent []; FileClose].
Proof.
  intros Hshould Hread. unfold processFile. cbn [fst snd].
  rewrite Hshould, Hread. cbn. repeat split.
Qed.

(** C5: a file that passes [shouldProcessFile] and whose read throws gets
    one error block with its relative path and the message of the error,
    leaves the three counters as they were, and the loop goes on with the
    remaining files. *)
Theorem read_failure_recovered (startPath dir : path) (name message : string)
  (f : file) (rest : list (string * file)) (st : state) :
  shouldProcessFile rt (join dir name) f = true ->
  readFileSync rt f (getFileEncoding f) = Throw message ->
  let st' := processFile rt startPath dir (name, f) st in
  output st' = output st ++ [ErrorBlock (relative startPath (join dir name)) message] /\
  render (ErrorBlock (relative startPath (join dir name)) message)
  = Text (nl ++ "<error file=" ++ dq
             ++ showPath (relative startPath (join dir name)) ++ dq ++ ">"
             ++ message ++ "</error>" ++ nl) /\
  fileCount st' = fileCount st /\
  totalLines st' = totalLines st /\
  totalTokens st' = totalTokens st /\
  forFiles rt startPath dir ((name, f) :: rest) st
  = forFiles rt startPath dir rest st'.
Proof.
  intros Hshould Hread. unfold processFile. cbn [fst snd].
  rewrite Hshould, Hread. cbn. repeat split.
  unfold processFile. cbn [fst snd]. now rewrite Hshould, Hread.
Qed.

(** The probe buffer starts with the bytes read. *)
Lemma probeBuffer_prefix (bytes : list Z) (b0 b1 b2 b3 : Z) :
  firstn 4 bytes = [b0; b1; b2; b3] -> probeBuffer bytes = [b0; b1; b2; b3].
Proof.
  unfold probeBuffer.
  destruct bytes as [|x0 [|x1 [|x2 [|x3 r]]]]; simpl; try discriminate.
  intros H. exact H.
Qed.

(** C9: for a file whose probe reads 00 00 FE FF and that passes
    [shouldProcessFile], [getFileEncoding] is ['utf32le'], which
    [readFileSync] refuses, so the content pass writes an error block for it
    and no file block. *)
Theorem utf32be_bom_error_block (startPath dir : path) (name : string)
  (f : file) (bytes : list Z) (st : state) :
  f_probe f = Done bytes ->
  firstn 4 bytes = [0x00; 0x00; 0xFE; 0xFF] ->
  shouldProcessFile rt (join dir name) f = true ->
  getFileEncoding f = "utf32le" /\
  isEncoding "utf32le" = false /\
  readFileSync rt f "utf32le" = Throw (encodingError rt "utf32le") /\
  processFile rt startPath dir (name, f) st
  = write [ErrorBlock (relative startPath (join dir name))
             (encodingError rt "utf32le")] st.
Proof.
  intros Hprobe Hbom Hshould.
  assert (Henc : getFileEncoding f = "utf32le").
  { unfold getFileEncoding. rewrite Hprobe.
    now rewrite (probeBuffer_prefix _ _ _ _ _ Hbom). }
  assert (Hread : readFileSync rt f "utf32le" = Throw (encodingError rt "utf32le"))
    by reflexivity.
  repeat split; try assumption.
  unfold processFile. cbn [fst snd]. now rewrite Hshould, Henc, Hread.
Qed.

(** A file that shows the same bytes at every access and starts with
    00 00 FE FF has a null byte in front: the sniff rejects it, whatever its
    name. *)
Lemma utf32be_bom_stable_rejected (filePath : path) (bytes : list Z) :
  firstn 4 bytes = [0x00; 0x00; 0xFE; 0xFF] ->
  shouldProcessFile rt filePath (stableFile bytes) = false.
Proof.
  intros Hbom.
  assert (Hsniff : isTextFile (stableFile bytes) = false).
  { unfold isTextFile, stableFile. cbn [f_sniff].
    destruct bytes as [|x0 r]; [discriminate|].
    cbn [firstn] in Hbom. injection Hbom as -> _. reflexivity. }
  unfold shouldProcessFile. rewrite Hsniff.
  repeat match goal with |- context [if ?b then _ else _] => destruct b end;
    reflexivity.
Qed.

Lemma existsb_null_prefix (bytes : list Z) :
  existsb (Z.eqb 0) (firstn 1024 bytes) = true <-> nullInPrefix bytes.
Proof.
  unfold nullInPrefix. rewrite existsb_exists. split.
  - intros [x [Hin Hx]]. apply Z.eqb_eq in Hx. subst x.
    destruct (In_nth_error _ _ Hin) as [i Hi].
    exists i. split.
    + assert (Hlt : (i < List.length (firstn 1024 bytes))%nat)
        by (apply nth_error_Some; congruence).
      rewrite length_firstn in Hlt. lia.
    + rewrite nth_error_firstn in Hi.
      destruct (Nat.ltb i 1024); [exact Hi | discriminate].
  - intros [i [Hlt Hi]]. exists 0. split; [|reflexivity].
    apply (nth_error_In _ i). rewrite nth_error_firstn.
    apply Nat.ltb_lt in Hlt. now rewrite Hlt.
Qed.

(** C6: the sniff is the last gate of [shouldProcessFile].  For a file that
    survives the checks on its name and extension, the answer is [false]
    when the read throws, and otherwise [false] exactly when a null byte
    occurs among the first 1024 bytes; names with a text extension such as
    [.txt] and names with no extension survive the extension checks. *)
Theorem sniff_is_final_gate (filePath : path) (f : file) :
  basename filePath <> getScriptName rt ->
  has EXCLUDED_FILES (basename filePath) = false ->
  has EXCLUDED_EXTENSIONS (toLowerCase rt (extname filePath)) = false ->
  has TEXT_EXTENSIONS (toLowerCase rt (extname filePath)) = true
  \/ toLowerCase rt (extname filePath) = "" ->
  shouldProcessFile rt filePath f = isTextFile f /\
  (forall message, f_sniff f = Throw message ->
     shouldProcessFile rt filePath f = false) /\
  (forall bytes, f_sniff f = Done bytes ->
     (nullInPrefix bytes -> shouldProcessFile rt filePath f = false) /\
     (~ nullInPrefix bytes -> shouldProcessFile rt filePath f = true)) /\
  has TEXT_EXTENSIONS ".txt" = true /\ has EXCLUDED_EXTENSIONS ".txt" = false /\
  has EXCLUDED_EXTENSIONS "" = false.
Proof.
  intros Hscript Hfile Hexcl Htext.
  assert (Heq : shouldProcessFile rt filePath f = isTextFile f).
  { unfold shouldProcessFile. cbv zeta.
    apply String.eqb_neq in Hscript. rewrite Hscript, Hfile, Hexcl.
    destruct Htext as [Ht | Ht]; rewrite Ht; [reflexivity|].
    now rewrite orb_true_r. }
  split; [exact Heq|]. rewrite Heq. unfold isTextFile.
  split; [|split].
  - intros message ->. reflexivity.
  - intros bytes ->. split.
    + intros Hnull. apply existsb_null_prefix in Hnull. now rewrite Hnull.
    + intros Hnull. destruct (existsb (Z.eqb 0) (firstn 1024 bytes)) eqn:E;
        [|reflexivity].
      exfalso. apply Hnull. now apply existsb_null_prefix.
  - repeat split.
Qed.

End ProcessFile.

(** ** Encoding detection *)

(** C3, where it does not hold: 00 00 FE FF is none of the signatures the
    specification names, which therefore gives UTF-8; the script has a
    branch for these four bytes and answers ['utf32le']. *)
Lemma utf32be_bom_not_utf8 :
  let bytes := [0x00; 0x00; 0xFE; 0xFF] in
  specifiedEncoding bytes = "utf8" /\
  getFileEncoding (stableFile bytes) = "utf32le" /\
  getFileEncoding (stableFile bytes) <> specifiedEncoding bytes.
Proof.
  cbv zeta. repeat split. vm_compute. discriminate.
Qed.

(** The first test of the UTF-32 branch comes after the UTF-16 test, which
    already accepts every buffer that starts with FF FE. *)
Lemma utf32le_bom_shadowed :
  getFileEncoding (stableFile [0xFF; 0xFE; 0x00; 0x00]) = "utf16le".
Proof. reflexivity. Qed.

Ltac decide_bytes :=
  repeat match goal with
         | |- context [Z.eqb ?a ?b] => destruct (Z.eqb_spec a b); subst
         end;
  cbn [andb orb]; try reflexivity; try congruence.

(** C3, amended: EF BB BF gives ['utf8']; FE FF, and FF FE unless the four
    bytes are FF FE 00 00, give ['utf16le']; 00 00 FE FF gives ['utf32le'];
    a prefix that starts with none of EF BB BF, FF FE, FE FF and
    00 00 FE FF gives ['utf8'], and so does a probe that throws. *)
Theorem getFileEncoding_classification (f : file) :
  (forall message, f_probe f = Throw message -> getFileEncoding f = "utf8") /\
  (forall bytes, f_probe f = Done bytes ->
     (firstn 3 bytes = [0xEF; 0xBB; 0xBF] -> getFileEncoding f = "utf8") /\
     (firstn 2 bytes = [0xFE; 0xFF] -> getFileEncoding f = "utf16le") /\
     (firstn 2 bytes = [0xFF; 0xFE] ->
      firstn 4 bytes <> [0xFF; 0xFE; 0x00; 0x00] ->
      getFileEncoding f = "utf16le") /\
     (firstn 4 bytes = [0x00; 0x00; 0xFE; 0xFF] -> getFileEncoding f = "utf32le") /\
     (firstn 3 bytes <> [0xEF; 0xBB; 0xBF] ->
      firstn 2 bytes <> [0xFF; 0xFE] ->
      firstn 2 bytes <> [0xFE; 0xFF] ->
      firstn 4 bytes <> [0x00; 0x00; 0xFE; 0xFF] ->
      getFileEncoding f = "utf8")).
Proof.
  split.
  - intros message H. unfold getFileEncoding. now rewrite H.
  - intros bytes H. unfold getFileEncoding. rewrite H. clear H.
    unfold probeBuffer, at_.
    destruct bytes as [|x0 [|x1 [|x2 [|x3 r]]]]; cbn [firstn app nth];
      (split; [|split; [|split; [|split]]]); intros; try discriminate;
      repeat match goal with
             | H : _ :: _ = _ :: _ |- _ => injection H as; subst
             end;
      try reflexivity; decide_bytes.
Qed.

(** ** The order of a listing in the tree pass *)

Section TreeOrder.

Variable rt : runtime.

Lemma insertBy_dir (x : string * node) (ds fs : list (string * node)) :
  isDirEntry x = true ->
  Forall (fun e => isDirEntry e = true) ds ->
  Forall (fun e => isDirEntry e = false) fs ->
  insertBy (compareItems rt) x (ds ++ fs) = insertBy (compareEntryNames rt) x ds ++ fs.
Proof.
  unfold isDirEntry. intros Hx Hds Hfs.
  induction Hds as [|y r Hy Hr IH]; simpl.
  - destruct Hfs as [|y r Hy Hr]; simpl; [reflexivity|].
    unfold compareItems. now rewrite Hx, Hy.
  - unfold compareItems at 1. rewrite Hx, Hy. simpl.
    unfold compareEntryNames at 1, compareNames.
    destruct (_ <=? 0); [reflexivity|]. now rewrite IH.
Qed.

Lemma insertBy_other (x : string * node) (ds fs : list (string * node)) :
  isDirEntry x = false ->
  Forall (fun e => isDirEntry e = true) ds ->
  Forall (fun e => isDirEntry e = false) fs ->
  insertBy (compareItems rt) x (ds ++ fs) = ds ++ insertBy (compareEntryNames rt) x fs.
Proof.
  unfold isDirEntry. intros Hx Hds Hfs.
  induction Hds as [|y r Hy Hr IH]; simpl.
  - induction Hfs as [|y r Hy Hr IH]; simpl; [reflexivity|].
    unfold compareItems at 1. rewrite Hx, Hy. simpl.
    unfold compareEntryNames at 1, compareNames. now rewrite IH.
  - unfold compareItems at 1. rewrite Hx, Hy. simpl. now rewrite IH.
Qed.

Lemma Forall_sortBy_filter {A} (cmp : A -> A -> Z) (p : A -> bool) (b : bool)
  (l : list A) :
  Forall (fun e => p e = b) (sortBy cmp (filter (fun e => Bool.eqb (p e) b) l)).
Proof.
  eapply Permutation_Forall; [apply sortBy_perm|].
  apply Forall_forall. intros e He. apply filter_In in He.
  destruct He as [_ He]. now apply Bool.eqb_prop in He.
Qed.

Lemma sortBy_compareItems (entries : list (string * node)) :
  sortBy (compareItems rt) entries
  = sortBy (compareEntryNames rt) (filter (fun e => Bool.eqb (isDirEntry e) true) entries)
    ++ sortBy (compareEntryNames rt) (filter (fun e => Bool.eqb (isDirEntry e) false) entries).
Proof.
  induction entries as [|x r IH]; [reflexivity|].
  cbn [sortBy filter]. rewrite IH.
  destruct (isDirEntry x) eqn:Hx; cbn [Bool.eqb sortBy].
  - apply insertBy_dir; [exact Hx | apply Forall_sortBy_filter ..].
  - apply insertBy_other; [exact Hx | apply Forall_sortBy_filter ..].
Qed.

Hypothesis localeCompare_total :
  forall a b, 0 < localeCompare rt a b -> localeCompare rt b a <= 0.
Hypothesis localeCompare_trans :
  forall a b c, localeCompare rt a b <= 0 -> localeCompare rt b c <= 0 ->
                localeCompare rt a c <= 0.

(** C8: the listing the tree pass walks is a rearrangement of what
    [readdirSync] returned with all directories before all other entries,
    each group in alphabetical order of the lower-cased names; and the
    siblings zeta/ (a directory), Apple.txt and banana.txt come out as
    zeta/, Apple.txt, banana.txt in whatever order they were listed. *)
Theorem tree_listing_order (startPath : path) (prefix : string)
  (entries : list (string * node)) :
  let items := sortBy (compareItems rt) entries in
  (has EXCLUDED_DIRS (basename startPath) = false ->
   generateTree rt startPath (Dir (Done entries)) prefix
   = TreeDir prefix (basename startPath) ::
     treeLoop rt _ (fun e => e)
       (fun item => generateTree rt (join startPath (fst item)) (snd item))
       startPath prefix (List.length items) 0 items) /\
  Permutation entries items /\
  (exists dirs files,
     items = dirs ++ files /\
     Forall (fun e => isDirectory (snd e) = true) dirs /\
     Forall (fun e => isDirectory (snd e) = false) files /\
     StronglySorted (nameBefore rt) dirs /\
     StronglySorted (nameBefore rt) files) /\
  Forall (fun listing =>
            map render (generateTree exampleRuntime ["home"; "proj"]
                          (Dir (Done listing)) "")
            = [Text ("proj/" ++ nl); Text ("│  zeta/" ++ nl);
               Text ("├─ Apple.txt" ++ nl); Text ("└─ banana.txt" ++ nl)])
    siblingListings.
Proof.
  cbv zeta. split; [|split; [|split]].
  - intros Hroot. rewrite generateTree_unfold, Hroot. reflexivity.
  - apply sortBy_perm.
  - rewrite sortBy_compareItems.
    eexists _, _. split; [reflexivity|].
    split; [apply (Forall_sortBy_filter _ isDirEntry true)|].
    split; [apply (Forall_sortBy_filter _ isDirEntry false)|].
    split; apply (sortBy_sorted (compareEntryNames rt));
      unfold compareEntryNames, compareNames; eauto.
  - repeat constructor.
Qed.

End TreeOrder.

(** The comparison of [nodeRuntime] is a total order. *)
Lemma codeCompare_total (a b : string) : 0 < codeCompare a b -> codeCompare b a <= 0.
Proof.
  unfold codeCompare.
  destruct (String_as_OT.compare_spec a b) as [Heq | Hlt | Hgt]; try lia.
  intros _. unfold String_as_OT.lt in Hgt. rewrite Hgt. lia.
Qed.

Lemma codeCompare_le (a b : string) :
  codeCompare a b <= 0 <-> a = b \/ String_as_OT.lt a b.
Proof.
  unfold codeCompare.
  destruct (String_as_OT.compare_spec a b) as [Heq | Hlt | Hgt].
  - split; [now left | lia].
  - split; [now right | lia].
  - split; [lia|]. intros [-> | Hlt]; exfalso.
    + now apply (StrictOrder_Irreflexive b).
    + apply (StrictOrder_Irreflexive a). now transitivity b.
Qed.

Lemma codeCompare_trans (a b c : string) :
  codeCompare a b <= 0 -> codeCompare b c <= 0 -> codeCompare a c <= 0.
Proof.
  rewrite !codeCompare_le. intros [-> | Hab] [-> | Hbc]; auto.
  right. now transitivity b.
Qed.

Lemma tree_listing_order_witness :
  exists dirs files,
    sortBy (compareItems exampleRuntime) siblings = dirs ++ files /\
    Forall (fun e => isDirectory (snd e) = true) dirs /\
    Forall (fun e => isDirectory (snd e) = false) files /\
    StronglySorted (nameBefore exampleRuntime) dirs /\
    StronglySorted (nameBefore exampleRuntime) files.
Proof.
  exact (proj1 (proj2 (proj2
    (tree_listing_order exampleRuntime codeCompare_total codeCompare_trans
       ["home"; "proj"] "" siblings)))).
Defined.

(** ** Excluded directories *)

Lemma reachedFrom_step (dir : path) (d : string) (p : path) :
  has EXCLUDED_DIRS d = false -> reachedFrom (join dir d) p -> reachedFrom dir p.
Proof.
  intros Hd [sub [name [-> Hsub]]]. exists (d :: sub), name. split.
  - unfold join. now rewrite <- app_assoc.
  - now constructor.
Qed.

Section Excluded.

Variable rt : runtime.

Lemma treeLoop_paths (startPath : path) (prefix : string)
  (recurse : string * node -> string -> list item) (len : nat)
  (items : list (string * node)) :
  Forall (fun e => has EXCLUDED_DIRS (fst e) = false ->
                   forall pre, Forall (reachedFrom (join startPath (fst e)))
                                 (treePaths (recurse e pre))) items ->
  forall i, Forall (reachedFrom startPath)
              (treePaths (treeLoop rt _ (fun e => e) recurse startPath prefix len i items)).
Proof.
  induction 1 as [|e r He Hr IH]; intros i; cbn [treeLoop]; [constructor|].
  unfold treePaths. rewrite flat_map_app. apply Forall_app. split; [|apply IH].
  destruct (isDirectory (snd e)).
  - destruct (has EXCLUDED_DIRS (fst e)) eqn:Hex; cbn [negb]; [constructor|].
    eapply Forall_impl; [|apply (He eq_refl)].
    intros p. now apply reachedFrom_step.
  - destruct (shouldProcessFile _ _ _); [|constructor].
    repeat constructor. exists [], (fst e). now split.
Qed.

(** The tree pass lists only files reached through directories that are
    not excluded, and nothing at all below an excluded [startPath]. *)
Lemma generateTree_paths (n : node) :
  forall startPath prefix,
    Forall (reachedFrom startPath) (treePaths (generateTree rt startPath n prefix)) /\
    (has EXCLUDED_DIRS (basename startPath) = true ->
     generateTree rt startPath n prefix = []).
Proof.
  induction n as [f | f | message | entries IH] using node_ind;
    intros startPath prefix.
  1-3: cbn [generateTree];
       destruct (has EXCLUDED_DIRS (basename startPath));
       split; try discriminate; try reflexivity; repeat constructor.
  rewrite generateTree_unfold.
  destruct (has EXCLUDED_DIRS (basename startPath)) eqn:Hroot.
  - split; [constructor | reflexivity].
  - split; [|discriminate]. cbv zeta. cbn [treePaths flat_map app].
    apply treeLoop_paths. apply Forall_forall. intros e He _ pre.
    apply sortBy_In in He.
    rewrite Forall_forall in IH. apply (IH e He).
Qed.

Lemma treeLoop_items (startPath : path) (prefix : string)
  (recurse : string * node -> string -> list item) (len : nat)
  (items : list (string * node)) :
  Forall (fun e => forall pre, Forall treeItem (recurse e pre)) items ->
  forall i, Forall treeItem
              (treeLoop rt _ (fun e => e) recurse startPath prefix len i items).
Proof.
  induction 1 as [|e r He Hr IH]; intros i; cbn [treeLoop]; [constructor|].
  apply Forall_app. split; [|apply IH].
  destruct (isDirectory (snd e)).
  - destruct (negb _); [apply He | constructor].
  - destruct (shouldProcessFile _ _ _); repeat constructor.
Qed.

(** The tree pass writes tree lines only. *)
Lemma generateTree_items (n : node) :
  forall startPath prefix, Forall treeItem (generateTree rt startPath n prefix).
Proof.
  induction n as [f | f | message | entries IH] using node_ind;
    intros startPath prefix.
  1-3: cbn [generateTree];
       destruct (has EXCLUDED_DIRS (basename startPath)); repeat constructor.
  rewrite generateTree_unfold.
  destruct (has EXCLUDED_DIRS (basename startPath)); [constructor|].
  cbv zeta. constructor; [exact I|].
  apply treeLoop_items. apply Forall_forall. intros e He pre.
  apply sortBy_In in He. rewrite Forall_forall in IH. apply (IH e He).
Qed.

Lemma processFile_paths (startPath dir : path) (file : string * file) (st : state) :
  exists new,
    output (processFile rt startPath dir file st) = output st ++ new /\
    Forall (fun p => p = relative startPath (join dir (fst file))) (contentPaths new) /\
    Forall blockItem new.
Proof.
  unfold processFile. destruct (shouldProcessFile _ _ _).
  - destruct (readFileSync _ _ _); eexists; (split; [reflexivity|]);
      split; repeat constructor.
  - exists []. split; [now rewrite app_nil_r | split; constructor].
Qed.

Lemma forFiles_paths (startPath dir : path) (files : list (string * file)) :
  forall st, exists new,
    output (forFiles rt startPath dir files st) = output st ++ new /\
    Forall (fun p => exists name, p = relative startPath (join dir name))
      (contentPaths new) /\
    Forall blockItem new.
Proof.
  induction files as [|file r IH]; intros st; cbn [forFiles].
  - exists []. split; [now rewrite app_nil_r | split; constructor].
  - destruct (processFile_paths startPath dir file st) as [new1 [H1 [P1 B1]]].
    destruct (IH (processFile rt startPath dir file st)) as [new2 [H2 [P2 B2]]].
    exists (new1 ++ new2). split; [|split].
    + now rewrite H2, H1, app_assoc.
    + unfold contentPaths. rewrite flat_map_app. apply Forall_app. split; [|exact P2].
      eapply Forall_impl; [|exact P1]. intros p ->. now exists (fst file).
    + now apply Forall_app.
Qed.

Lemma forDirs_appends {X} (R : path -> Prop) (g : X -> M unit) (l : list X) :
  Forall (fun x => appends R (g x)) l -> appends R (forDirs g l).
Proof.
  induction 1 as [|x r Hx Hr IH]; intros st; cbn [forDirs].
  - exists []. split; [cbn; now rewrite app_nil_r | split; constructor].
  - unfold bind. destruct (Hx st) as [new1 [H1 [P1 B1]]].
    destruct (g x st) as [[[]|message] st1]; cbn [snd] in H1.
    + destruct (IH st1) as [new2 [H2 [P2 B2]]]. exists (new1 ++ new2).
      split; [|split].
      * now rewrite H2, H1, app_assoc.
      * unfold contentPaths. rewrite flat_map_app. now apply Forall_app.
      * now apply Forall_app.
    + exists new1. now split.
Qed.

(** The content pass, started in [dir] below [startPath], writes nothing
    but file and error blocks, and those only for files reached from [dir]
    through directories that are not excluded.  The name of [dir] itself is
    not looked at. *)
Lemma walkDir_paths (n : node) :
  forall startPath dir,
    appends (fun p => exists q, reachedFrom dir q /\ p = relative startPath q)
      (walkDir rt startPath dir n).
Proof.
  induction n as [f | f | message | entries IH] using node_ind;
    intros startPath dir st.
  1-3: exists []; split; [cbn; now rewrite app_nil_r | split; constructor].
  rewrite walkDir_unfold.
  destruct (forFiles_paths startPath dir (filesOf rt entries) st)
    as [new1 [H1 [P1 B1]]].
  assert (Hdirs : appends
            (fun p => exists q, reachedFrom dir q /\ p = relative startPath q)
            (forDirs (fun subdir => walkDir rt startPath (join dir (fst subdir)) (snd subdir))
               (dirsOf entries))).
  { apply forDirs_appends. apply Forall_forall. intros e He.
    unfold dirsOf in He. apply filter_In in He. destruct He as [He Hex].
    apply filter_In in He. destruct He as [He _].
    apply negb_true_iff in Hex.
    rewrite Forall_forall in IH. intros st0.
    destruct (IH e He startPath (join dir (fst e)) st0) as [new [Hn [Pn Bn]]].
    exists new. split; [exact Hn|]. split; [|exact Bn].
    eapply Forall_impl; [|exact Pn].
    intros p [q [Hq ->]]. exists q. split; [|reflexivity].
    now apply (reachedFrom_step dir (fst e)). }
  destruct (Hdirs (forFiles rt startPath dir (filesOf rt entries) st))
    as [new2 [H2 [P2 B2]]].
  exists (new1 ++ new2). split; [|split].
  - now rewrite H2, H1, app_assoc.
  - unfold contentPaths. rewrite flat_map_app. apply Forall_app. split; [|exact P2].
    eapply Forall_impl; [|exact P1].
    intros p [name ->]. exists (join dir name). split; [|reflexivity].
    exists [], name. now split.
  - now apply Forall_app.
Qed.

Lemma treePaths_blocks (l : list item) : Forall blockItem l -> treePaths l = [].
Proof.
  induction 1 as [|i r Hi Hr IH]; [reflexivity|].
  cbn [treePaths flat_map]. fold (treePaths r). rewrite IH.
  now destruct i.
Qed.

Lemma contentPaths_tree (l : list item) : Forall treeItem l -> contentPaths l = [].
Proof.
  induction 1 as [|i r Hi Hr IH]; [reflexivity|].
  cbn [contentPaths flat_map]. fold (contentPaths r). rewrite IH.
  now destruct i.
Qed.

(** Both sections of the output name only files reached from the walk root
    through directories that are not excluded. *)
Lemma excluded_subdirectories_skipped (startPath : path) (root : node) :
  let out := snd (processDirectory rt startPath root) in
  Forall (reachedFrom startPath) (treePaths out) /\
  Forall (fun p => exists q, reachedFrom startPath q /\ p = relative startPath q)
    (contentPaths out).
Proof.
  cbv zeta. unfold processDirectory.
  match goal with
  | |- context [walkDir rt ?sp ?dir root ?st] =>
      destruct (walkDir_paths root sp dir st) as [new [Hout [Hpaths Hnew]]];
      destruct (walkDir rt sp dir root st) as [[[]|message] st6]
  end; cbn [snd] in *; cbn [write output app] in *; rewrite Hout;
    pose proof (generateTree_paths root startPath "") as [Htree _];
    pose proof (generateTree_items root startPath "") as Hitems;
    unfold treePaths, contentPaths in *;
    cbn [flat_map app]; rewrite !flat_map_app; cbn [flat_map app];
    fold (treePaths new); fold (contentPaths (generateTree rt startPath root ""));
    rewrite (treePaths_blocks new Hnew), (contentPaths_tree _ Hitems);
    rewrite ?app_nil_r; cbn [app]; split; assumption.
Qed.

End Excluded.

(** C2, where the script departs from it: the walk root is a directory
    named [build] that holds [a.txt].  The tree pass tests the name of its
    start path and writes nothing; [processDirectory] calls [walkDir] on the
    root without that test, and the content section holds the file. *)
Theorem excluded_root_content_emitted :
  let root := Dir (Done [("a.txt", textFile "hi")]) in
  let startPath := ["home"; "build"] in
  has EXCLUDED_DIRS (basename startPath) = true /\
  generateTree exampleRuntime startPath root "" = [] /\
  processDirectory exampleRuntime startPath root
  = (Done (mkSummary 1 1 1),
     [Literal ("<project_overview>" ++ nl); GeneratedAt "build";
      Literal ("<directory_structure>" ++ nl);
      Literal ("</directory_structure>" ++ nl ++ nl);
      Literal ("<file_contents>" ++ nl);
      FileOpen ["a.txt"]; FileContent (js "hi"); FileClose;
      Literal ("</file_contents>" ++ nl); Literal "</project_overview>";
      StreamEnd]).
Proof. cbv zeta. repeat split. Qed.

(** ** A directory that cannot be listed *)

Lemma forDirs_throws {X} (g : X -> M unit) (l : list X) (x : X) :
  In x l -> throws (g x) -> throws (forDirs g l).
Proof.
  intros Hin Hx. induction l as [|y r IH]; [contradiction|].
  intros st. cbn [forDirs]. unfold bind.
  destruct (g y st) as [[[]|message] st1] eqn:Hy.
  - destruct Hin as [-> | Hin].
    + destruct (Hx st) as [m [st' H]]. congruence.
    + apply (IH Hin).
  - now exists message, st1.
Qed.

Lemma deniedBelow_isDirectory (n : node) : deniedBelow n -> isDirectory n = true.
Proof. now destruct 1. Qed.

Section Denied.

Variable rt : runtime.

(** The tree pass on a directory that cannot be listed: its own line, one
    sentinel line, nothing below. *)
Lemma generateTree_denied (startPath : path) (message prefix : string) :
  has EXCLUDED_DIRS (basename startPath) = false ->
  generateTree rt startPath (Dir (Throw message)) prefix
  = [TreeDir prefix (basename startPath); TreeDenied prefix].
Proof. intros H. cbn [generateTree]. now rewrite H. Qed.

(** The content pass on it: the error of [readdirSync] leaves [walkDir]. *)
Lemma walkDir_denied (startPath dir : path) (message : string) (st : state) :
  walkDir rt startPath dir (Dir (Throw message)) st = (Throw message, st).
Proof. reflexivity. Qed.

Lemma walkDir_throws (n : node) :
  deniedBelow n -> forall startPath dir, throws (walkDir rt startPath dir n).
Proof.
  induction 1 as [message | entries name child Hin Hex Hchild IH];
    intros startPath dir st.
  - now exists message, st.
  - rewrite walkDir_unfold.
    apply (forDirs_throws
             (fun subdir => walkDir rt startPath (join dir (fst subdir)) (snd subdir))
             (dirsOf entries) (name, child)).
    + unfold dirsOf. apply filter_In. split.
      * apply filter_In. split; [exact Hin|].
        now apply deniedBelow_isDirectory.
      * cbn [fst]. now rewrite Hex.
    + apply IH.
Qed.

(** C1, what the script does: as soon as a directory that the content pass
    walks cannot be listed, [processDirectory] throws; the closing markers
    are not written, the stream is not ended, and the main block reports
    the error instead of the counts. *)
Theorem listing_failure_aborts_run (root : node) :
  deniedBelow root ->
  exists message out,
    processDirectory rt (cwd rt) root = (Throw message, out) /\
    ~ In StreamEnd out /\
    ~ In (Literal "</project_overview>") out /\
    main rt root = ([LogError ("Error: " ++ message)], out).
Proof.
  intros Hdenied. unfold main, processDirectory.
  match goal with
  | |- context [walkDir rt ?sp ?dir root ?st] =>
      destruct (walkDir_throws root Hdenied sp dir st) as [message [st' Hw]];
      destruct (walkDir_paths rt root sp dir st) as [new [Hout [_ Hnew]]];
      rewrite Hw in *
  end.
  exists message, (output st'). cbn [snd] in Hout.
  pose proof (generateTree_items rt root (cwd rt) "") as Htree.
  rewrite Forall_forall in Hnew, Htree.
  split; [reflexivity|]. split; [|split]; [| |reflexivity].
  all: rewrite Hout; cbn [write output app]; intros H;
    repeat (destruct H as [H | H]; [discriminate|]);
    rewrite !in_app_iff in H; cbn [In] in H;
    decompose [or] H; try discriminate; try contradiction;
    match goal with
    | Hin : In _ _ |- _ => first [apply (Hnew _ Hin) | apply (Htree _ Hin)]
    end.
Qed.

End Denied.

Lemma lockedProject_denied : deniedBelow lockedProject.
Proof.
  apply (denied_under _ "locked" (Dir (Throw "EACCES: permission denied, scandir"))).
  - now left.
  - reflexivity.
  - constructor.
Qed.

Lemma listing_failure_aborts_run_witness :
  deniedBelow lockedProject /\
  (exists message out,
     processDirectory exampleRuntime (cwd exampleRuntime) lockedProject
     = (Throw message, out) /\
     ~ In StreamEnd out /\
     ~ In (Literal "</project_overview>") out /\
     main exampleRuntime lockedProject = ([LogError ("Error: " ++ message)], out)) /\
  processDirectory exampleRuntime ["home"; "proj"] lockedProject
  = (Throw "EACCES: permission denied, scandir",
     [Literal ("<project_overview>" ++ nl); GeneratedAt "proj";
      Literal ("<directory_structure>" ++ nl);
      TreeDir "" "proj";
      TreeDir "│  " "locked"; TreeDenied "│  ";
      TreeDir "   " "src"; TreeFile "   └─ " ["home"; "proj"; "src"] "a.txt";
      Literal ("</directory_structure>" ++ nl ++ nl);
      Literal ("<file_contents>" ++ nl)]).
Proof.
  split; [exact lockedProject_denied|]. split.
  - exact (listing_failure_aborts_run exampleRuntime lockedProject
             lockedProject_denied).
  - reflexivity.
Defined.

(** ** The command line *)

(** The main block never reads [process.argv] beyond the script name. *)
Lemma main_ignores_arguments (exe script : path) (args : list path) (cwd : path)
  (lower : string -> string) (compare : string -> string -> Z)
  (decode : string -> list Z -> jsstring) (err : string -> string) (root : node) :
  main (mkRuntime (exe :: script :: args) cwd lower compare decode err) root
  = main (mkRuntime [exe; script] cwd lower compare decode err) root.
Proof. reflexivity. Qed.

(** C4, where the script departs from it: [node project2context.js
    frontend], run in [/home/proj].  The walk is rooted at the working
    directory as it is without the argument: the output names [proj] and
    holds [README.md], which is not below [frontend]; rooted at [frontend]
    it would hold [app.js] alone. *)
Theorem target_directory_ignored :
  let exe := ["usr"; "bin"; "node"] in
  let script := ["home"; "proj"; "project2context.js"] in
  let withTarget := nodeRuntime [exe; script; ["frontend"]] ["home"; "proj"] in
  let without := nodeRuntime [exe; script] ["home"; "proj"] in
  nth_error (argv withTarget) 2 = Some ["frontend"] /\
  main withTarget frontendProject = main without frontendProject /\
  snd (main withTarget frontendProject)
  = [Literal ("<project_overview>" ++ nl); GeneratedAt "proj";
     Literal ("<directory_structure>" ++ nl);
     TreeDir "" "proj";
     TreeDir "│  " "frontend"; TreeFile "│  └─ " ["home"; "proj"; "frontend"] "app.js";
     TreeFile "└─ " ["home"; "proj"] "README.md";
     Literal ("</directory_structure>" ++ nl ++ nl);
     Literal ("<file_contents>" ++ nl);
     FileOpen ["README.md"]; FileContent (js "readme"); FileClose;
     FileOpen ["frontend"; "app.js"]; FileContent (js "x"); FileClose;
     Literal ("</file_contents>" ++ nl); Literal "</project_overview>";
     StreamEnd] /\
  (forall target, resolve frontendProject ["frontend"] = Some target ->
     snd (processDirectory without ["home"; "proj"; "frontend"] target)
     = [Literal ("<project_overview>" ++ nl); GeneratedAt "frontend";
        Literal ("<directory_structure>" ++ nl);
        TreeDir "" "frontend"; TreeFile "└─ " ["home"; "proj"; "frontend"] "app.js";
        Literal ("</directory_structure>" ++ nl ++ nl);
        Literal ("<file_contents>" ++ nl);
        FileOpen ["app.js"]; FileContent (js "x"); FileClose;
        Literal ("</file_contents>" ++ nl); Literal "</project_overview>";
        StreamEnd]).
Proof.
  cbv zeta. repeat split.
  intros target H. injection H as <-. reflexivity.
Qed.

(** ** The statements above at concrete files *)

Lemma empty_content_counts_witness :
  let st' := processFile exampleRuntime ["home"; "proj"] ["home"; "proj"]
               ("empty.txt", stableFile []) emptyState in
  shouldProcessFile exampleRuntime (join ["home"; "proj"] "empty.txt") (stableFile []) = true /\
  readFileSync exampleRuntime (stableFile []) (getFileEncoding (stableFile [])) = Done [] /\
  totalLines st' = 1 /\ totalTokens st' = 1 /\ fileCount st' = 1.
Proof.
  cbv zeta.
  pose proof (empty_content_counts exampleRuntime ["home"; "proj"] ["home"; "proj"]
                "empty.txt" (stableFile []) emptyState eq_refl eq_refl)
    as [H1 [H2 [H3 _]]].
  split; [reflexivity|]. split; [reflexivity|].
  split; [exact H1|]. split; [exact H2 | exact H3].
Defined.

Lemma read_failure_recovered_witness :
  let dir := ["home"; "proj"; "src"] in
  let st' := processFile exampleRuntime ["home"; "proj"] dir
               ("notes.txt", vanishingFile) emptyState in
  shouldProcessFile exampleRuntime (join dir "notes.txt") vanishingFile = true /\
  readFileSync exampleRuntime vanishingFile (getFileEncoding vanishingFile)
  = Throw "EACCES: permission denied, open" /\
  output st' = [ErrorBlock ["src"; "notes.txt"] "EACCES: permission denied, open"] /\
  fileCount st' = 0 /\ totalLines st' = 0 /\ totalTokens st' = 0 /\
  forFiles exampleRuntime ["home"; "proj"] dir
    [("notes.txt", vanishingFile); ("other.txt", stableFile (js "x"))] emptyState
  = forFiles exampleRuntime ["home"; "proj"] dir
      [("other.txt", stableFile (js "x"))] st'.
Proof.
  cbv zeta.
  pose proof (read_failure_recovered exampleRuntime ["home"; "proj"]
                ["home"; "proj"; "src"] "notes.txt"
                "EACCES: permission denied, open" vanishingFile
                [("other.txt", stableFile (js "x"))] emptyState eq_refl eq_refl)
    as [H1 [_ [H2 [H3 [H4 H5]]]]].
  split; [reflexivity|]. split; [reflexivity|].
  split; [exact H1|]. split; [exact H2|]. split; [exact H3|].
  split; [exact H4 | exact H5].
Defined.

Lemma utf32be_bom_error_block_witness :
  f_probe rewrittenFile = Done [0x00; 0x00; 0xFE; 0xFF; 0x00; 0x00; 0x00; 0x41] /\
  shouldProcessFile exampleRuntime (join ["home"; "proj"] "wide.txt") rewrittenFile = true /\
  getFileEncoding rewrittenFile = "utf32le" /\
  processFile exampleRuntime ["home"; "proj"] ["home"; "proj"]
    ("wide.txt", rewrittenFile) emptyState
  = write [ErrorBlock ["wide.txt"] "Unknown encoding: utf32le"] emptyState.
Proof.
  pose proof (utf32be_bom_error_block exampleRuntime ["home"; "proj"] ["home"; "proj"]
                "wide.txt" rewrittenFile _ emptyState eq_refl eq_refl eq_refl)
    as [H1 [_ [_ H2]]].
  split; [reflexivity|]. split; [reflexivity|]. split; [exact H1 | exact H2].
Defined.

Lemma sniff_is_final_gate_witness :
  let filePath := ["home"; "proj"; "notes.txt"] in
  let f := stableFile [104; 0; 105] in
  nullInPrefix [104; 0; 105] /\
  shouldProcessFile exampleRuntime filePath f = false /\
  shouldProcessFile exampleRuntime ["home"; "proj"; "Makefile"] (stableFile (js "all:")) = true.
Proof.
  cbv zeta.
  assert (Hnull : nullInPrefix [104; 0; 105]).
  { exists 1%nat. split; [lia | reflexivity]. }
  split; [exact Hnull|]. split.
  - assert (Hscript : basename ["home"; "proj"; "notes.txt"] <> getScriptName exampleRuntime)
      by discriminate.
    destruct (sniff_is_final_gate exampleRuntime ["home"; "proj"; "notes.txt"]
                (stableFile [104; 0; 105]) Hscript eq_refl eq_refl (or_introl eq_refl))
      as [_ [_ [H _]]].
    exact (proj1 (H _ eq_refl) Hnull).
  - assert (Hscript : basename ["home"; "proj"; "Makefile"] <> getScriptName exampleRuntime)
      by discriminate.
    destruct (sniff_is_final_gate exampleRuntime ["home"; "proj"; "Makefile"]
                (stableFile (js "all:")) Hscript eq_refl eq_refl (or_intror eq_refl))
      as [_ [_ [H _]]].
    apply (proj2 (H _ eq_refl)).
    intros [i [Hi Hnth]].
    do 4 (destruct i as [|i]; [discriminate|]). destruct i; discriminate.
Defined.

Lemma getFileEncoding_classification_witness :
  getFileEncoding (stableFile [0xFE; 0xFF; 0x00; 0x41]) = "utf16le" /\
  getFileEncoding (stableFile [0x00; 0x00; 0xFE; 0xFF]) = "utf32le" /\
  getFileEncoding (stableFile [0xEF; 0xBB; 0xBF; 0x41]) = "utf8" /\
  getFileEncoding (stableFile (js "text")) = "utf8" /\
  getFileEncoding (unreadableFile "EACCES: permission denied, open") = "utf8".
Proof.
  split; [|split; [|split; [|split]]].
  - destruct (getFileEncoding_classification (stableFile [0xFE; 0xFF; 0x00; 0x41]))
      as [_ H].
    destruct (H _ eq_refl) as [_ [H2 _]]. exact (H2 eq_refl).
  - destruct (getFileEncoding_classification (stableFile [0x00; 0x00; 0xFE; 0xFF]))
      as [_ H].
    destruct (H _ eq_refl) as [_ [_ [_ [H4 _]]]]. exact (H4 eq_refl).
  - destruct (getFileEncoding_classification (stableFile [0xEF; 0xBB; 0xBF; 0x41]))
      as [_ H].
    destruct (H _ eq_refl) as [H1 _]. exact (H1 eq_refl).
  - destruct (getFileEncoding_classification (stableFile (js "text"))) as [_ H].
    destruct (H _ eq_refl) as [_ [_ [_ [_ H5]]]].
    apply H5; discriminate.
  - destruct (getFileEncoding_classification
                (unreadableFile "EACCES: permission denied, open")) as [H _].
    exact (H _ eq_refl).
Defined.

(** ** The sniff and the probe read a prefix *)


Lemma probeBuffer_firstn (bytes : list Z) :
  probeBuffer (firstn 4 bytes) = probeBuffer bytes.
Proof.
  unfold probeBuffer.
  destruct bytes as [|x0 [|x1 [|x2 [|x3 r]]]]; reflexivity.
Qed.

Lemma probeBuffer_utf32 (bytes : list Z) :
  probeBuffer bytes = [0x00; 0x00; 0xFE; 0xFF] ->
  firstn 4 bytes = [0x00; 0x00; 0xFE; 0xFF].
Proof.
  unfold probeBuffer.
  destruct bytes as [|x0 [|x1 [|x2 [|x3 r]]]]; cbn [firstn app];
    intros H; try discriminate; exact H.
Qed.

Ltac split_bytes :=
  repeat match goal with
         | |- context [Z.eqb ?a ?b] => destruct (Z.eqb_spec a b); subst
         end;
  cbn [andb orb].

Lemma getFileEncoding_values (f : file) :
  getFileEncoding f = "utf8" \/ getFileEncoding f = "utf16le"
  \/ (getFileEncoding f = "utf32le" /\
      exists bytes, f_probe f = Done bytes /\
                    firstn 4 bytes = [0x00; 0x00; 0xFE; 0xFF]).
Proof.
  unfold getFileEncoding. destruct (f_probe f) as [bytes|message]; [|now left].
  unfold probeBuffer, at_.
  destruct bytes as [|x0 [|x1 [|x2 [|x3 r]]]]; cbn [firstn app nth];
    split_bytes; auto; try discriminate.
  right. right. split; [reflexivity|]. eexists. split; reflexivity.
Qed.

(** X2: the answer of [getFileEncoding] is ['utf8'], ['utf16le'] or
    ['utf32le']; it depends on the first four bytes of the probe alone; and
    it is ['utf32le'] for the prefix 00 00 FE FF and for no other. *)
Theorem getFileEncoding_range (f : file) :
  (getFileEncoding f = "utf8" \/ getFileEncoding f = "utf16le"
   \/ getFileEncoding f = "utf32le") /\
  (forall g bytes bytes',
     f_probe f = Done bytes -> f_probe g = Done bytes' ->
     firstn 4 bytes = firstn 4 bytes' ->
     getFileEncoding f = getFileEncoding g) /\
  (getFileEncoding f = "utf32le" <->
   exists bytes, f_probe f = Done bytes /\
                 firstn 4 bytes = [0x00; 0x00; 0xFE; 0xFF]).
Proof.
  split; [|split].
  - destruct (getFileEncoding_values f) as [H | [H | [H _]]]; auto.
  - intros g bytes bytes' Hf Hg Heq. unfold getFileEncoding.
    rewrite Hf, Hg, <- (probeBuffer_firstn bytes), <- (probeBuffer_firstn bytes').
    now rewrite Heq.
  - split.
    + intros H. destruct (getFileEncoding_values f) as [H' | [H' | [_ H']]];
        [congruence | congruence | exact H'].
    + intros [bytes [Hf Hbom]]. unfold getFileEncoding. rewrite Hf.
      now rewrite (probeBuffer_prefix _ _ _ _ _ Hbom).
Qed.

Section StableFiles.

Variable rt : runtime.

Lemma shouldProcessFile_isTextFile (filePath : path) (f : file) :
  shouldProcessFile rt filePath f = true -> isTextFile f = true.
Proof.
  unfold shouldProcessFile.
  repeat match goal with
         | |- context [if ?b then _ else _] => destruct b
         end; auto; discriminate.
Qed.

(** X3: a file that shows the same bytes to every read and passes
    [shouldProcessFile] always gets a file block, decoded as ['utf8'] or
    ['utf16le'], and is counted; the content pass writes no error block for
    it. *)
Theorem stable_file_block (startPath dir : path) (name : string)
  (bytes : list Z) (st : state) :
  shouldProcessFile rt (join dir name) (stableFile bytes) = true ->
  exists encoding,
    (encoding = "utf8" \/ encoding = "utf16le") /\
    getFileEncoding (stableFile bytes) = encoding /\
    processFile rt startPath dir (name, stableFile bytes) st
    = mkState (output st ++ [FileOpen (relative startPath (join dir name));
                             FileContent (decode rt encoding bytes); FileClose])
        (totalLines st + (countNewlines (decode rt encoding bytes) + 1))
        (totalTokens st + estimateTokens (decode rt encoding bytes))
        (fileCount st + 1).
Proof.
  intros Hshould.
  assert (Henc : getFileEncoding (stableFile bytes) = "utf8"
                 \/ getFileEncoding (stableFile bytes) = "utf16le").
  { destruct (getFileEncoding_values (stableFile bytes))
      as [H | [H | [_ [bs [Hp Hbom]]]]]; auto.
    exfalso. cbn in Hp. injection Hp as <-.
    pose proof (utf32be_bom_stable_rejected rt (join dir name) bytes Hbom).
    congruence. }
  exists (getFileEncoding (stableFile bytes)).
  split; [exact Henc|]. split; [reflexivity|].
  unfold processFile. cbn [fst snd]. rewrite Hshould.
  destruct Henc as [-> | ->]; reflexivity.
Qed.

End StableFiles.

(** ** Bounds on the token estimate *)

Lemma whitespaceRuns_le (text : jsstring) (prev : bool) :
  (whitespaceRuns prev text <= List.length (filter isWhitespace text))%nat.
Proof.
  revert prev. induction text as [|c r IH]; intros prev; cbn [whitespaceRuns filter].
  - lia.
  - destruct (isWhitespace c); cbn [List.length].
    + specialize (IH true). destruct prev; lia.
    + apply IH.
Qed.

Lemma special_whitespace_le (text : jsstring) :
  (List.length (filter (fun c => negb (isPlain c)) text)
   + List.length (filter isWhitespace text) <= List.length text)%nat.
Proof.
  induction text as [|c r IH]; cbn [filter List.length]; [lia|].
  unfold isPlain at 1.
  destruct (isWhitespace c); rewrite ?orb_true_r, ?orb_false_r;
    cbn [negb List.length].
  - lia.
  - destruct (negb _); cbn [List.length]; lia.
Qed.

(** X4: the estimate is at least 1, for the empty text too, and at most
    n + 1 + floor((n + 1) / 4) for a text of n code units. *)
Theorem estimateTokens_bounds (text : jsstring) :
  let n := Z.of_nat (List.length text) in
  1 <= estimateTokens text <= (n + 1) + (n + 1) / 4.
Proof.
  cbv zeta. unfold estimateTokens, splitWhitespace.
  rewrite splitFrom_length.
  pose proof (whitespaceRuns_le text false) as Hruns.
  pose proof (special_whitespace_le text) as Hspecial.
  set (runs := whitespaceRuns false text) in *.
  set (special := List.length (filter (fun c => negb (isPlain c)) text)) in *.
  set (n := List.length text) in *.
  assert (Hdiv : Z.of_nat (S runs) / 4 <= (Z.of_nat n + 1) / 4)
    by (apply Z.div_le_mono; lia).
  assert (Hpos : 0 <= Z.of_nat (S runs) / 4) by (apply Z.div_pos; lia).
  lia.
Qed.

(** ** The segments of the split *)

Lemma splitFrom_nonempty (text cur : jsstring) (inRun : bool) :
  splitFrom cur inRun text <> [].
Proof.
  revert cur inRun. induction text as [|c r IH]; intros cur inRun; cbn [splitFrom].
  - discriminate.
  - destruct (isWhitespace c); [destruct inRun|]; try apply IH. discriminate.
Qed.

Lemma removelast_cons {A} (x : A) (l : list A) :
  l <> [] -> removelast (x :: l) = x :: removelast l.
Proof. destruct l; [contradiction | reflexivity]. Qed.

(** Once a segment is open, or a run of whitespace is being skipped, every
    segment but the last is non-empty. *)
Lemma splitFrom_inner (text cur : jsstring) (inRun : bool) :
  cur <> [] \/ inRun = true ->
  Forall (fun seg => seg <> []) (removelast (splitFrom cur inRun text)).
Proof.
  revert cur inRun. induction text as [|c r IH]; intros cur inRun H;
    cbn [splitFrom].
  - constructor.
  - destruct (isWhitespace c).
    + destruct inRun.
      * apply IH. now right.
      * rewrite removelast_cons by apply splitFrom_nonempty.
        constructor.
        -- destruct H as [H | H]; [|discriminate].
           intros Hrev. apply H. destruct cur; [reflexivity|].
           cbn in Hrev. now destruct (rev cur).
        -- apply IH. now right.
    + apply IH. left. discriminate.
Qed.

Lemma rev_nil_inv {A} (l : list A) : rev l = [] -> l = [].
Proof.
  destruct l as [|x r]; [reflexivity|]. cbn. now destruct (rev r).
Qed.

Lemma last_cons (A : Type) (l : list A) :
  l <> [] -> forall x d, last (x :: l) d = last l d.
Proof. intros Hl x d. destruct l; [contradiction | reflexivity]. Qed.

Lemma splitFrom_last (text cur : jsstring) (inRun : bool) :
  (inRun = true -> cur = []) ->
  (last (splitFrom cur inRun text) [] = [] <->
   (text = [] /\ cur = []) \/ (text <> [] /\ isWhitespace (last text 0) = true)).
Proof.
  revert cur inRun. induction text as [|c r IH]; intros cur inRun Hrun.
  - cbn. split.
    + intros H. left. split; [reflexivity | now apply rev_nil_inv].
    + intros [[_ ->] | [H _]]; [reflexivity | contradiction].
  - pose proof (@last_cons) as Hlast.
    assert (Htail : isWhitespace (last (c :: r) 0) = true <->
                    (r = [] /\ isWhitespace c = true)
                    \/ (r <> [] /\ isWhitespace (last r 0) = true)).
    { destruct r as [|c' r'].
      - cbn. split; [intros H; left; now split | intros [[_ H] | [H _]]; [exact H | contradiction]].
      - rewrite (Hlast _ (c' :: r')) by discriminate.
        split; [intros H; right; split; [discriminate | exact H]
               | intros [[H _] | [_ H]]; [discriminate | exact H]]. }
    cbn [splitFrom]. destruct (isWhitespace c) eqn:Hc.
    + assert (Hgoal : last (splitFrom [] true r) [] = [] <->
                      (c :: r = [] /\ cur = [])
                      \/ (c :: r <> [] /\ isWhitespace (last (c :: r) 0) = true)).
      { rewrite (IH [] true (fun _ => eq_refl)), Htail. split.
        - intros [[-> _] | H]; right; (split; [discriminate|]); auto.
        - intros [[H _] | [_ [[-> _] | H]]]; [discriminate | now left | now right]. }
      destruct inRun.
      * specialize (Hrun eq_refl). subst cur. exact Hgoal.
      * rewrite Hlast by apply splitFrom_nonempty. exact Hgoal.
    + rewrite (IH (c :: cur) false) by discriminate. rewrite Htail. split.
      * intros [[_ H] | H]; [discriminate|]. right. split; [discriminate | now right].
      * intros [[H _] | [_ [[_ H] | H]]]; [discriminate | congruence | now right].
Qed.

Lemma splitFrom_head (text cur : jsstring) (inRun : bool) :
  cur <> [] -> hd [] (splitFrom cur inRun text) <> [].
Proof.
  revert cur inRun. induction text as [|c r IH]; intros cur inRun Hcur;
    cbn [splitFrom].
  - cbn. intros H. now apply Hcur, rev_nil_inv.
  - destruct (isWhitespace c); [destruct inRun|].
    + now apply IH.
    + cbn. intros H. now apply Hcur, rev_nil_inv.
    + apply IH. discriminate.
Qed.

Lemma Forall_removelast_tl {A} (P : A -> Prop) (l : list A) :
  Forall P (removelast l) -> Forall P (removelast (tl l)).
Proof.
  destruct l as [|x [|y r]]; cbn [tl]; intros H; try constructor.
  rewrite removelast_cons in H by discriminate. now inversion H.
Qed.

(** X5: of the segments [text.split(/\s+/)] yields, only the first and the
    last can be empty: the first is empty exactly when the text is empty or
    starts with whitespace, the last exactly when the text is empty or ends
    with whitespace.  Each of them still counts as a word. *)
Theorem split_empty_segments (text : jsstring) :
  let segments := splitWhitespace text in
  Forall (fun seg => seg <> []) (removelast (tl segments)) /\
  (hd [] segments = [] <->
   text = [] \/ exists c rest, text = c :: rest /\ isWhitespace c = true) /\
  (last segments [] = [] <->
   text = [] \/ (text <> [] /\ isWhitespace (last text 0) = true)).
Proof.
  cbv zeta. unfold splitWhitespace. split; [|split].
  - destruct text as [|c r]; [constructor|]. cbn [splitFrom].
    destruct (isWhitespace c).
    + cbn [tl]. apply splitFrom_inner. now right.
    + apply Forall_removelast_tl, splitFrom_inner. left. discriminate.
  - destruct text as [|c r].
    + cbn. split; [now left | reflexivity].
    + cbn [splitFrom]. destruct (isWhitespace c) eqn:Hc.
      * cbn. split; [|reflexivity]. intros _. right. now exists c, r.
      * split.
        -- intros H. exfalso. revert H. apply splitFrom_head. discriminate.
        -- intros [H | [c' [r' [H Hc']]]]; [discriminate|].
           injection H as <- <-. congruence.
  - rewrite (splitFrom_last text [] false) by discriminate. split.
    + intros [[H _] | H]; [now left | now right].
    + intros [H | H]; [left; now split | now right].
Qed.

(** ** The counters and the blocks of the content section *)

Lemma contents_app (a b : list item) : contents (a ++ b) = contents a ++ contents b.
Proof. apply flat_map_app. Qed.

Lemma sumLines_app (a b : list jsstring) : sumLines (a ++ b) = sumLines a + sumLines b.
Proof. unfold sumLines. induction a as [|c r IH]; cbn [app fold_right] in *; lia. Qed.

Lemma sumTokens_app (a b : list jsstring) :
  sumTokens (a ++ b) = sumTokens a + sumTokens b.
Proof. unfold sumTokens. induction a as [|c r IH]; cbn [app fold_right] in *; lia. Qed.

Lemma wholeBlocks_app (a b : list item) :
  wholeBlocks a -> wholeBlocks b -> wholeBlocks (a ++ b).
Proof. induction 1; intros Hb; cbn [app]; [exact Hb | constructor; auto ..]. Qed.

Lemma contents_tree (l : list item) : Forall treeItem l -> contents l = [].
Proof.
  induction 1 as [|i r Hi Hr IH]; [reflexivity|].
  cbn [contents flat_map]. fold (contents r). rewrite IH. now destruct i.
Qed.

Lemma wholeBlocks_contents (l : list item) :
  wholeBlocks l ->
  List.length (contents l)
  = List.length (filter (fun i => match i with FileOpen _ => true | _ => false end) l).
Proof.
  induction 1 as [|relPath content rest Hrest IH | relPath message rest Hrest IH].
  - reflexivity.
  - change (contents (FileOpen relPath :: FileContent content :: FileClose :: rest))
      with (content :: contents rest).
    cbn [filter List.length]. now rewrite IH.
  - change (contents (ErrorBlock relPath message :: rest)) with (contents rest).
    cbn [filter]. exact IH.
Qed.

Lemma accounts_ret : accounts (ret tt).
Proof.
  intros st. exists []. cbn. rewrite app_nil_r.
  split; [reflexivity|]. split; [constructor | auto].
Qed.

Lemma forDirs_accounts {X} (g : X -> M unit) (l : list X) :
  Forall (fun x => accounts (g x)) l -> accounts (forDirs g l).
Proof.
  induction 1 as [|x r Hx Hr IH]; cbn [forDirs]; [apply accounts_ret|].
  intros st. unfold bind. destruct (Hx st) as [new1 [H1 [B1 C1]]].
  destruct (g x st) as [[[]|message] st1]; cbn [snd] in *.
  - destruct (IH st1) as [new2 [H2 [B2 C2]]]. exists (new1 ++ new2).
    split; [now rewrite H2, H1, app_assoc|].
    split; [now apply wholeBlocks_app | auto].
  - exists new1. auto.
Qed.

Section Accounts.

Variable rt : runtime.

Lemma processFile_accounts (startPath dir : path) (file : string * file) (st : state) :
  exists new,
    output (processFile rt startPath dir file st) = output st ++ new /\
    wholeBlocks new /\
    (counted st -> counted (processFile rt startPath dir file st)).
Proof.
  unfold processFile. destruct (shouldProcessFile _ _ _).
  - destruct (readFileSync _ _ _) as [content|message]; eexists;
      (split; [reflexivity|]); (split; [repeat constructor|]).
    + unfold counted. cbn [output totalLines totalTokens fileCount].
      rewrite contents_app, length_app, sumLines_app, sumTokens_app.
      cbn. intros [-> [-> ->]]. repeat split; lia.
    + unfold counted, write. cbn [output totalLines totalTokens fileCount].
      rewrite contents_app. cbn. rewrite app_nil_r. auto.
  - exists []. rewrite app_nil_r. split; [reflexivity|]. split; [constructor | auto].
Qed.

Lemma forFiles_accounts (startPath dir : path) (files : list (string * file)) :
  forall st, exists new,
    output (forFiles rt startPath dir files st) = output st ++ new /\
    wholeBlocks new /\
    (counted st -> counted (forFiles rt startPath dir files st)).
Proof.
  induction files as [|file r IH]; intros st; cbn [forFiles].
  - exists []. rewrite app_nil_r. split; [reflexivity|]. split; [constructor | auto].
  - destruct (processFile_accounts startPath dir file st) as [new1 [H1 [B1 C1]]].
    destruct (IH (processFile rt startPath dir file st)) as [new2 [H2 [B2 C2]]].
    exists (new1 ++ new2). split; [now rewrite H2, H1, app_assoc|].
    split; [now apply wholeBlocks_app | auto].
Qed.

Lemma walkDir_accounts (n : node) :
  forall startPath dir, accounts (walkDir rt startPath dir n).
Proof.
  induction n as [f | f | message | entries IH] using node_ind;
    intros startPath dir st.
  1-3: exists []; cbn; rewrite app_nil_r;
       (split; [reflexivity|]); split; [constructor | auto].
  rewrite walkDir_unfold.
  destruct (forFiles_accounts startPath dir (filesOf rt entries) st)
    as [new1 [H1 [B1 C1]]].
  assert (Hdirs : accounts
            (forDirs (fun subdir => walkDir rt startPath (join dir (fst subdir)) (snd subdir))
               (dirsOf entries))).
  { apply forDirs_accounts. apply Forall_forall. intros e He.
    unfold dirsOf in He. apply filter_In in He. destruct He as [He _].
    apply filter_In in He. destruct He as [He _].
    rewrite Forall_forall in IH. apply (IH e He). }
  destruct (Hdirs (forFiles rt startPath dir (filesOf rt entries) st))
    as [new2 [H2 [B2 C2]]].
  exists (new1 ++ new2). split; [now rewrite H2, H1, app_assoc|].
  split; [now apply wholeBlocks_app | auto].
Qed.

(** The layout of the stream: whatever the walk meets, the stream holds
    the two opening lines, the tree lines between their markers, then whole
    blocks only (a file block is its opening tag, its content and its
    closing tag; an error block is one write), then the two closing lines
    and the end of the stream when [processDirectory] returns, and nothing
    more when it throws. *)
Lemma processDirectory_layout (startPath : path) (root : node) :
  exists blocks closing,
    snd (processDirectory rt startPath root)
    = [Literal ("<project_overview>" ++ nl); GeneratedAt (basename startPath);
       Literal ("<directory_structure>" ++ nl)]
      ++ generateTree rt startPath root ""
      ++ [Literal ("</directory_structure>" ++ nl ++ nl);
          Literal ("<file_contents>" ++ nl)]
      ++ blocks ++ closing /\
    Forall treeItem (generateTree rt startPath root "") /\
    wholeBlocks blocks /\
    match fst (processDirectory rt startPath root) with
    | Done _ => closing = [Literal ("</file_contents>" ++ nl);
                           Literal "</project_overview>"; StreamEnd]
    | Throw _ => closing = []
    end.
Proof.
  unfold processDirectory.
  match goal with
  | |- context [walkDir rt ?sp ?dir root ?st] =>
      destruct (walkDir_accounts root sp dir st) as [new [Hout [Hblocks _]]];
      destruct (walkDir rt sp dir root st) as [[[]|message] st6]
  end; cbn [fst snd] in *; cbn [write output app] in *; rewrite Hout.
  - exists new, [Literal ("</file_contents>" ++ nl);
                 Literal "</project_overview>"; StreamEnd].
    split; [cbn [app]; repeat (rewrite <- app_assoc; cbn [app]); reflexivity|].
    split; [apply generateTree_items|]. now split.
  - exists new, []. rewrite app_nil_r.
    split; [cbn [app]; repeat (rewrite <- app_assoc; cbn [app]); reflexivity|].
    split; [apply generateTree_items|]. now split.
Qed.

(** X6: the layout of the stream.  Whatever the walk meets, the stream holds
    the two opening lines, the tree lines between their markers, then whole
    blocks only (a file block is its opening tag, its content and its
    closing tag; an error block is one write), then the two closing lines
    and the end of the stream when [processDirectory] returns, and nothing
    more when it throws; the stream is ended exactly when
    [processDirectory] returns. *)
Theorem output_layout (startPath : path) (root : node) :
  exists blocks closing,
    snd (processDirectory rt startPath root)
    = [Literal ("<project_overview>" ++ nl); GeneratedAt (basename startPath);
       Literal ("<directory_structure>" ++ nl)]
      ++ generateTree rt startPath root ""
      ++ [Literal ("</directory_structure>" ++ nl ++ nl);
          Literal ("<file_contents>" ++ nl)]
      ++ blocks ++ closing /\
    Forall treeItem (generateTree rt startPath root "") /\
    wholeBlocks blocks /\
    match fst (processDirectory rt startPath root) with
    | Done _ => closing = [Literal ("</file_contents>" ++ nl);
                           Literal "</project_overview>"; StreamEnd]
    | Throw _ => closing = []
    end /\
    (In StreamEnd (snd (processDirectory rt startPath root))
     <-> exists s, fst (processDirectory rt startPath root) = Done s).
Proof.
  destruct (processDirectory_layout startPath root)
    as [blocks [closing [Hlay [Htree [Hblocks Hend]]]]].
  exists blocks, closing.
  split; [exact Hlay|]. split; [exact Htree|]. split; [exact Hblocks|].
  split; [exact Hend|].
  assert (Hblock : forall i, In i blocks -> blockItem i).
  { clear - Hblocks. induction Hblocks; intros i Hi; cbn in Hi;
      repeat (destruct Hi as [<- | Hi]; [exact I|]); auto; contradiction. }
  rewrite Forall_forall in Htree. rewrite Hlay.
  destruct (fst (processDirectory rt startPath root)) as [s|message]; subst closing.
  - split; [intros _; now exists s|]. intros _.
    repeat first [rewrite in_app_iff | progress cbn [In app]]. tauto.
  - split; [|intros [s H]; discriminate]. intros Hin. exfalso.
    repeat first [rewrite in_app_iff in Hin | progress cbn [In app] in Hin].
    decompose [or] Hin; try discriminate; try contradiction;
      match goal with
      | H : In StreamEnd blocks |- _ => exact (Hblock _ H)
      | H : In StreamEnd (generateTree _ _ _ _) |- _ => exact (Htree _ H)
      end.
Qed.

(** X7: when [processDirectory] returns, its three counters are those of
    the stream: [fileCount] is the number of file blocks (error blocks are
    not counted), [totalLines] is the sum over the written contents of
    their newlines plus one, [totalTokens] the sum of their estimates. *)
Theorem summary_counts_stream (startPath : path) (root : node) (s : summary)
  (out : list item) :
  processDirectory rt startPath root = (Done s, out) ->
  s_fileCount s = Z.of_nat (List.length (contents out)) /\
  s_fileCount s
  = Z.of_nat (List.length
                (filter (fun i => match i with FileOpen _ => true | _ => false end) out)) /\
  s_totalLines s = sumLines (contents out) /\
  s_totalTokens s = sumTokens (contents out).
Proof.
  intros Hrun.
  destruct (processDirectory_layout startPath root) as [blocks [closing [Hlay [Htree [Hblocks Hend]]]]].
  assert (Hcount : counted (mkState out (s_totalLines s) (s_totalTokens s) (s_fileCount s))).
  { revert Hrun. unfold processDirectory.
    match goal with
    | |- context [walkDir rt ?sp ?dir root ?st] =>
        destruct (walkDir_accounts root sp dir st) as [new [Hout [_ Hkeep]]];
        destruct (walkDir rt sp dir root st) as [[[]|message] st6]
    end; [|discriminate].
    cbn [snd] in *. intros H. injection H as <- <-.
    cbn [s_fileCount s_totalLines s_totalTokens].
    assert (H6 : counted st6).
    { apply Hkeep. unfold counted, write.
      cbn [output totalLines totalTokens fileCount].
      rewrite !contents_app, (contents_tree _ (generateTree_items rt root startPath "")).
      cbn. auto. }
    unfold counted, write in *. cbn [output totalLines totalTokens fileCount] in *.
    rewrite contents_app. cbn. rewrite app_nil_r. exact H6. }
  destruct Hcount as [Hc [Hl Ht]]. cbn [output totalLines totalTokens fileCount] in *.
  split; [exact Hc|]. split; [|now split].
  rewrite Hc. f_equal. rewrite Hrun in Hlay, Hend. cbn [fst snd] in *. subst closing.
  assert (Hnone : filter (fun i => match i with FileOpen _ => true | _ => false end)
                    (generateTree rt startPath root "") = []).
  { clear - Htree. induction Htree as [|i r Hi Hr IH]; [reflexivity|].
    cbn [filter]. rewrite IH. now destruct i. }
  rewrite Hlay.
  rewrite !contents_app, !filter_app, !length_app.
  rewrite (contents_tree _ Htree), (wholeBlocks_contents _ Hblocks), Hnone.
  cbn [contents flat_map filter app List.length]. lia.
Qed.

End Accounts.

(** ** When the run completes *)

Lemma forDirs_done {X} (g : X -> M unit) (l : list X) :
  (forall x, In x l -> forall st, fst (g x st) = Done tt) ->
  forall st, fst (forDirs g l st) = Done tt.
Proof.
  induction l as [|x r IH]; intros H st; cbn [forDirs]; [reflexivity|].
  unfold bind. pose proof (H x (or_introl eq_refl) st) as Hx.
  destruct (g x st) as [[[]|message] st1]; [|discriminate].
  apply IH. intros y Hy. apply H. now right.
Qed.

Lemma forDirs_fails {X} (g : X -> M unit) (l : list X) (x : X) :
  In x l -> (forall st, fst (g x st) <> Done tt) ->
  forall st, fst (forDirs g l st) <> Done tt.
Proof.
  intros Hin Hx. induction l as [|y r IH]; [contradiction|].
  intros st. cbn [forDirs]. unfold bind.
  destruct (g y st) as [[[]|message] st1] eqn:Hy; [|discriminate].
  destruct Hin as [-> | Hin]; [|now apply IH].
  exfalso. apply (Hx st). now rewrite Hy.
Qed.

Section Completes.

Variable rt : runtime.

(** [walkDir] returns exactly on the trees it can walk. *)
Lemma walkDir_done_iff (n : node) :
  forall startPath dir st,
    fst (walkDir rt startPath dir n st) = Done tt <-> walkable n = true.
Proof.
  induction n as [f | f | message | entries IH] using node_ind;
    intros startPath dir st.
  1-3: cbn; split; discriminate.
  rewrite walkDir_unfold. cbn [walkable]. rewrite forallb_forall.
  rewrite Forall_forall in IH. split.
  - intros Hdone e He.
    destruct (isDirectory (snd e) && negb (has EXCLUDED_DIRS (fst e))) eqn:Hwalk;
      [|reflexivity].
    destruct (walkable (snd e)) eqn:Hw; [reflexivity|]. exfalso.
    revert Hdone.
    apply (forDirs_fails
             (fun subdir => walkDir rt startPath (join dir (fst subdir)) (snd subdir))
             (dirsOf entries) e).
    + apply andb_prop in Hwalk. destruct Hwalk as [Hd Hx].
      unfold dirsOf. apply filter_In. split; [|exact Hx].
      apply filter_In. now split.
    + intros st0 H0. apply (IH e He) in H0. congruence.
  - intros Hall. apply forDirs_done. intros e He st0.
    unfold dirsOf in He. apply filter_In in He. destruct He as [He Hx].
    apply filter_In in He. destruct He as [He Hd].
    apply (IH e He). specialize (Hall e He). now rewrite Hd, Hx in Hall.
Qed.

(** X8: [processDirectory] returns its counts exactly when every directory
    the content pass walks can be listed (the root, and below it every
    directory whose name and whose ancestors' names are not excluded);
    otherwise it throws and the main block prints one error line.  A
    directory that cannot be listed below an excluded one does no harm. *)
Theorem run_completes_iff_walkable (startPath : path) (root : node) :
  ((exists s, fst (processDirectory rt startPath root) = Done s)
   <-> walkable root = true) /\
  ((exists message, fst (processDirectory rt startPath root) = Throw message)
   <-> walkable root = false) /\
  ((exists message, fst (main rt root) = [LogError ("Error: " ++ message)])
   <-> walkable root = false).
Proof.
  assert (Hdir : forall sp,
             match fst (processDirectory rt sp root) with
             | Done _ => walkable root = true
             | Throw _ => walkable root = false
             end).
  { intros sp. unfold processDirectory.
    match goal with
    | |- context [walkDir rt ?sp ?dir root ?st] =>
        pose proof (walkDir_done_iff root sp dir st) as Hiff;
        destruct (walkDir rt sp dir root st) as [[[]|message] st6]
    end; cbn [fst] in *.
    - now apply Hiff.
    - destruct (walkable root); [|reflexivity].
      destruct Hiff as [_ H]. discriminate (H eq_refl). }
  split; [|split].
  - specialize (Hdir startPath).
    destruct (fst (processDirectory rt startPath root)) as [s|message].
    + split; [auto | intros _; now exists s].
    + split; [intros [s H]; discriminate | congruence].
  - specialize (Hdir startPath).
    destruct (fst (processDirectory rt startPath root)) as [s|message].
    + split; [intros [m H]; discriminate | congruence].
    + split; [auto | intros _; now exists message].
  - specialize (Hdir (cwd rt)). unfold main.
    destruct (processDirectory rt (cwd rt) root) as [[s|message] out]; cbn [fst] in *.
    + split; [intros [m H]; discriminate | congruence].
    + split; [auto | intros _; now exists message].
Qed.

End Completes.

(** ** Which files the two passes write *)

Lemma basename_join (dir : path) (name : string) : basename (join dir name) = name.
Proof. unfold basename, join. apply last_last. Qed.

Lemma relative_app (startPath rest : path) : relative startPath (startPath ++ rest) = rest.
Proof.
  unfold relative. induction startPath as [|d r IH]; [reflexivity | exact IH].
Qed.

Lemma forDirs_emits {X} (S : X -> path -> Prop) (g : X -> M unit) (l : list X) :
  (forall x, In x l -> emits (S x) (g x)) ->
  emits (fun q => exists x, In x l /\ S x q) (forDirs g l).
Proof.
  induction l as [|x r IH]; intros H st; cbn [forDirs].
  - exists []. cbn. rewrite app_nil_r. split; [reflexivity|].
    split; [contradiction | intros _ q [x [[] _]]].
  - unfold bind. destruct (H x (or_introl eq_refl) st) as [new1 [H1 [S1 C1]]].
    destruct (g x st) as [[[]|message] st1]; cbn [fst snd] in *.
    + destruct (IH (fun y Hy => H y (or_intror Hy)) st1) as [new2 [H2 [S2 C2]]].
      exists (new1 ++ new2). split; [now rewrite H2, H1, app_assoc|].
      unfold contentPaths in *. split.
      * intros q Hq. rewrite flat_map_app in Hq. apply in_app_or in Hq.
        destruct Hq as [Hq | Hq].
        -- exists x. split; [now left | auto].
        -- destruct (S2 q Hq) as [y [Hy Sy]]. exists y. split; [now right | exact Sy].
      * intros Hdone q [y [[<- | Hy] Sy]]; rewrite flat_map_app; apply in_or_app.
        -- left. now apply C1.
        -- right. apply (C2 Hdone). now exists y.
    + exists new1. split; [exact H1|]. split; [|discriminate].
      intros q Hq. exists x. split; [now left | auto].
Qed.

Section Visible.

Variable rt : runtime.

Lemma shouldProcessFile_basename (p q : path) (f : file) :
  basename p = basename q -> shouldProcessFile rt p f = shouldProcessFile rt q f.
Proof. intros H. unfold shouldProcessFile, extname. now rewrite H. Qed.

Lemma shouldProcessFile_true (p : path) (f : file) :
  shouldProcessFile rt p f = true ->
  basename p <> getScriptName rt /\
  has EXCLUDED_FILES (basename p) = false /\
  has EXCLUDED_EXTENSIONS (toLowerCase rt (extname p)) = false /\
  (has TEXT_EXTENSIONS (toLowerCase rt (extname p)) = true
   \/ toLowerCase rt (extname p) = "") /\
  isTextFile f = true.
Proof.
  unfold shouldProcessFile. cbv zeta.
  destruct (String.eqb_spec (basename p) (getScriptName rt)); [discriminate|].
  destruct (has EXCLUDED_FILES (basename p)); [discriminate|].
  destruct (has EXCLUDED_EXTENSIONS _); [discriminate|].
  destruct (has TEXT_EXTENSIONS _) eqn:Ht; cbn [orb negb].
  - intros H. repeat split; auto.
  - destruct (String.eqb_spec (toLowerCase rt (extname p)) ""); cbn [negb];
      [|discriminate].
    intros H. repeat split; auto.
Qed.

(** A visible entry passes [shouldProcessFile] under its own path, which
    lies below [dir] with no excluded directory on the way. *)
Lemma visible_path (dir : path) (n : node) (p : path) (leaf : node) :
  visible rt dir n p leaf ->
  shouldProcessFile rt p (fileOf leaf) = true /\ isDirectory leaf = false /\
  reachedFrom dir p.
Proof.
  induction 1 as [dir entries name child Hin Hd Hs
                 | dir entries name child p leaf Hin Hd Hx Hv IH].
  - split; [exact Hs|]. split; [exact Hd|]. exists [], name. now split.
  - destruct IH as [Hs [Hl Hr]]. split; [exact Hs|]. split; [exact Hl|].
    now apply (reachedFrom_step dir name).
Qed.

Lemma treeLoop_visible (startPath : path) (prefix : string)
  (recurse : string * node -> string -> list item) (Q : string * node -> Prop)
  (p : path) (len : nat) (items : list (string * node)) :
  (forall e, In e items -> has EXCLUDED_DIRS (fst e) = false ->
             forall pre, In p (treePaths (recurse e pre)) <-> Q e) ->
  forall i,
    In p (treePaths (treeLoop rt _ (fun e => e) recurse startPath prefix len i items))
    <-> exists e, In e items /\
          ((isDirectory (snd e) = true /\ has EXCLUDED_DIRS (fst e) = false /\ Q e)
           \/ (isDirectory (snd e) = false /\
               shouldProcessFile rt (join startPath (fst e)) (fileOf (snd e)) = true /\
               p = join startPath (fst e))).
Proof.
  induction items as [|e r IH]; intros H i; cbn [treeLoop].
  - split; [contradiction | intros [e [[] _]]].
  - unfold treePaths. rewrite flat_map_app, in_app_iff. fold treePaths.
    rewrite (IH (fun y Hy => H y (or_intror Hy)) (S i)).
    assert (Hhead :
      In p (treePaths
              (if isDirectory (snd e)
               then if negb (has EXCLUDED_DIRS (fst e))
                    then recurse e (prefix ++ (if Nat.eqb i (len - 1) then "   " else "│  "))%string
                    else []
               else if shouldProcessFile rt (join startPath (fst e)) (fileOf (snd e))
                    then [TreeFile (prefix ++ (if Nat.eqb i (len - 1) then "└─ " else "├─ "))%string
                            startPath (fst e)]
                    else []))
      <-> ((isDirectory (snd e) = true /\ has EXCLUDED_DIRS (fst e) = false /\ Q e)
           \/ (isDirectory (snd e) = false /\
               shouldProcessFile rt (join startPath (fst e)) (fileOf (snd e)) = true /\
               p = join startPath (fst e)))).
    { destruct (isDirectory (snd e)).
      - destruct (has EXCLUDED_DIRS (fst e)) eqn:Hx; cbn [negb].
        + split; [contradiction|]. intros [[_ [H0 _]] | [H0 _]]; discriminate.
        + rewrite (H e (or_introl eq_refl) Hx). split.
          * intros HQ. left. auto.
          * intros [[_ [_ HQ]] | [H0 _]]; [exact HQ | discriminate].
      - destruct (shouldProcessFile _ _ _).
        + cbn. split.
          * intros [<- | []]. right. auto.
          * intros [[H0 _] | [_ [_ ->]]]; [discriminate | now left].
        + split; [contradiction|]. intros [[H0 _] | [_ [H0 _]]]; discriminate. }
    cbv zeta. rewrite Hhead. split.
    + intros [Hh | [y [Hy Hq]]].
      * exists e. split; [now left | exact Hh].
      * exists y. split; [now right | exact Hq].
    + intros [y [[<- | Hy] Hq]]; [now left | right; now exists y].
Qed.

Lemma generateTree_visible (n : node) :
  forall startPath prefix p,
    has EXCLUDED_DIRS (basename startPath) = false ->
    (In p (treePaths (generateTree rt startPath n prefix))
     <-> exists leaf, visible rt startPath n p leaf).
Proof.
  induction n as [f | f | message | entries IH] using node_ind;
    intros startPath prefix p Hroot.
  1-3: cbn [generateTree]; rewrite Hroot; cbn;
       split; [contradiction | intros [leaf H]; inversion H].
  rewrite generateTree_unfold, Hroot. cbv zeta.
  change (treePaths (TreeDir prefix (basename startPath) :: ?l)) with (treePaths l).
  rewrite Forall_forall in IH.
  rewrite (treeLoop_visible startPath prefix _
             (fun e => exists leaf, visible rt (join startPath (fst e)) (snd e) p leaf)).
  - split.
    + intros [[name child] [He Hcase]]. apply sortBy_In in He. cbn [fst snd] in *.
      destruct Hcase as [[Hd [Hx [leaf Hv]]] | [Hd [Hs ->]]].
      * exists leaf. now apply (visible_below rt startPath entries name child).
      * exists child. now apply visible_entry.
    + intros [leaf Hv]. inversion Hv as [d es name child Hin Hd Hs
                                        | d es name child q l Hin Hd Hx Hbelow]; subst.
      * exists (name, leaf). split; [now apply sortBy_In|]. right. cbn. auto.
      * exists (name, child). split; [now apply sortBy_In|]. left. cbn.
        split; [exact Hd|]. split; [exact Hx|]. now exists leaf.
  - intros e He Hx pre. apply sortBy_In in He. apply (IH e He).
    now rewrite basename_join.
Qed.

Lemma filesOf_In (entries : list (string * node)) (f : string * file) :
  In f (filesOf rt entries) <->
  exists e, In e entries /\ isFile (snd e) = true /\ f = (fst e, fileOf (snd e)).
Proof.
  unfold filesOf. rewrite sortBy_In, in_map_iff. split.
  - intros [e [<- He]]. apply filter_In in He. exists e. tauto.
  - intros [e [He [Hf ->]]]. exists e. split; [reflexivity|].
    apply filter_In. now split.
Qed.

(** The blocks the loop over [files] writes, in order. *)
Lemma forFiles_blocks (startPath dir : path) (files : list (string * file)) :
  forall st, exists new,
    output (forFiles rt startPath dir files st) = output st ++ new /\
    contentPaths new
    = map (fun f => relative startPath (join dir (fst f)))
        (filter (fun f => shouldProcessFile rt (join dir (fst f)) (snd f)) files).
Proof.
  induction files as [|file r IH]; intros st; cbn [forFiles filter].
  - exists []. now rewrite app_nil_r.
  - destruct (IH (processFile rt startPath dir file st)) as [new2 [H2 P2]].
    unfold processFile in *.
    destruct (shouldProcessFile rt (join dir (fst file)) (snd file)).
    + destruct (readFileSync _ _ _) as [content|message]; eexists;
        (split; [rewrite H2; cbn [output write]; rewrite <- app_assoc; reflexivity|]);
        unfold contentPaths in *; rewrite flat_map_app, P2; reflexivity.
    + exists new2. now split.
Qed.

Lemma walkDir_emits (n : node) :
  forall startPath dir,
    emits (fun q => exists p leaf,
             visible rt dir n p leaf /\ isFile leaf = true /\ q = relative startPath p)
      (walkDir rt startPath dir n).
Proof.
  induction n as [f | f | message | entries IH] using node_ind;
    intros startPath dir st.
  1-3: exists []; cbn; rewrite app_nil_r; (split; [reflexivity|]);
       split; [contradiction | discriminate].
  rewrite walkDir_unfold. rewrite Forall_forall in IH.
  destruct (forFiles_blocks startPath dir (filesOf rt entries) st) as [new1 [H1 P1]].
  pose proof (forDirs_emits
                (fun e q => exists p leaf,
                     visible rt (join dir (fst e)) (snd e) p leaf /\
                     isFile leaf = true /\ q = relative startPath p)
                (fun subdir => walkDir rt startPath (join dir (fst subdir)) (snd subdir))
                (dirsOf entries)) as Hdirs.
  destruct (Hdirs (fun e He => IH e (proj1 (proj1 (filter_In _ _ _)
                                               (proj1 (proj1 (filter_In _ _ _) He))))
                               startPath (join dir (fst e)))
              (forFiles rt startPath dir (filesOf rt entries) st))
    as [new2 [H2 [S2 C2]]].
  exists (new1 ++ new2). split; [now rewrite H2, H1, app_assoc|].
  assert (Hown : forall q, In q (contentPaths new1) <->
                   exists name child, In (name, child) entries /\ isFile child = true /\
                     shouldProcessFile rt (join dir name) (fileOf child) = true /\
                     q = relative startPath (join dir name)).
  { intros q. rewrite P1, in_map_iff. split.
    - intros [f [<- Hf]]. apply filter_In in Hf. destruct Hf as [Hf Hs].
      apply filesOf_In in Hf. destruct Hf as [[name child] [He [Hfile ->]]].
      exists name, child. cbn [fst snd] in *. auto.
    - intros [name [child [He [Hfile [Hs ->]]]]].
      exists (name, fileOf child). split; [reflexivity|].
      apply filter_In. split; [|exact Hs].
      apply filesOf_In. now exists (name, child). }
  unfold contentPaths in *. split.
  - intros q Hq. rewrite flat_map_app in Hq. apply in_app_or in Hq.
    destruct Hq as [Hq | Hq].
    + apply Hown in Hq. destruct Hq as [name [child [He [Hfile [Hs ->]]]]].
      exists (join dir name), child. split; [|now split].
      apply visible_entry; auto. now destruct child.
    + destruct (S2 q Hq) as [[name child] [He [p [leaf [Hv [Hfile ->]]]]]].
      unfold dirsOf in He. apply filter_In in He. destruct He as [He Hx].
      apply filter_In in He. destruct He as [He Hd]. cbn [fst snd] in *.
      exists p, leaf. split; [|now split].
      apply (visible_below rt dir entries name child); auto.
      now apply negb_true_iff in Hx.
  - intros Hdone q [p [leaf [Hv [Hfile ->]]]].
    rewrite flat_map_app. apply in_or_app.
    inversion Hv as [d es name child Hin Hd Hs
                    | d es name child q l Hin Hd Hx Hbelow]; subst.
    + left. apply Hown. now exists name, leaf.
    + right. apply (C2 Hdone). exists (name, child). split.
      * unfold dirsOf. apply filter_In. split; [now apply filter_In|].
        cbn [fst]. now rewrite Hx.
      * cbn [fst snd]. now exists p, leaf.
Qed.

End Visible.

Section Sections.

Variable rt : runtime.

(** The two sections of the stream: the tree section holds the lines of
    [generateTree], the content section what [walkDir] appended. *)
Lemma processDirectory_sections (S : path -> Prop) (startPath : path) (root : node) :
  emits S (walkDir rt startPath startPath root) ->
  let out := snd (processDirectory rt startPath root) in
  treePaths out = treePaths (generateTree rt startPath root "") /\
  (forall q, In q (contentPaths out) -> S q) /\
  (walkable root = true -> forall q, S q -> In q (contentPaths out)).
Proof.
  intros Hemits. cbv zeta. unfold processDirectory.
  match goal with
  | |- context [walkDir rt ?sp ?dir root ?st] =>
      destruct (Hemits st) as [new [Hout [Hsound Hcomplete]]];
      destruct (walkDir_paths rt root sp dir st) as [new' [Hout' [_ Hnew]]];
      pose proof (walkDir_done_iff rt root sp dir st) as Hdone;
      destruct (walkDir rt sp dir root st) as [[[]|message] st6]
  end; cbn [fst snd] in *; rewrite Hout in Hout';
    apply app_inv_head in Hout'; subst new';
    pose proof (generateTree_items rt root startPath "") as Hitems;
    cbn [write output app] in *; rewrite Hout;
    unfold treePaths, contentPaths in *;
    cbn [flat_map app]; rewrite !flat_map_app; cbn [flat_map app];
    fold (treePaths new); fold (contentPaths (generateTree rt startPath root ""));
    rewrite (treePaths_blocks new Hnew), (contentPaths_tree _ Hitems);
    rewrite ?app_nil_r; cbn [app].
  - split; [reflexivity|]. split; [exact Hsound|]. intros _. now apply Hcomplete.
  - split; [reflexivity|]. split; [exact Hsound|].
    intros Hw. apply Hdone in Hw. discriminate.
Qed.

(** X9: the files the tree section lists are exactly the entries that are
    not directories, pass [shouldProcessFile] and are reached from the root
    through directories that list and are not excluded, the root's own name
    being no excluded one. *)
Theorem tree_section_files (startPath : path) (root : node) (p : path) :
  has EXCLUDED_DIRS (basename startPath) = false ->
  (In p (treePaths (snd (processDirectory rt startPath root)))
   <-> exists leaf, visible rt startPath root p leaf).
Proof.
  intros Hroot.
  destruct (processDirectory_sections _ startPath root
              (walkDir_emits rt root startPath startPath)) as [-> _].
  now apply generateTree_visible.
Qed.

(** X10: every block of the content section, file block or error block,
    belongs to a regular file that passes [shouldProcessFile] and is reached
    from the root through directories that list and are not excluded; when
    the run completes every such file has its block.  The name of the root
    plays no part. *)
Theorem content_section_files (startPath : path) (root : node) :
  let out := snd (processDirectory rt startPath root) in
  (forall q, In q (contentPaths out) ->
     exists p leaf, visible rt startPath root p leaf /\ isFile leaf = true /\
                    q = relative startPath p) /\
  (walkable root = true ->
   forall p leaf, visible rt startPath root p leaf -> isFile leaf = true ->
                  In (relative startPath p) (contentPaths out)).
Proof.
  cbv zeta.
  destruct (processDirectory_sections _ startPath root
              (walkDir_emits rt root startPath startPath)) as [_ [Hsound Hcomplete]].
  split; [exact Hsound|].
  intros Hw p leaf Hv Hfile. apply (Hcomplete Hw). now exists p, leaf.
Qed.

(** X11: the two sections agree.  Under a root whose name is not excluded,
    every file with a block in the content section has its line in the tree
    section; and when the run completes, a file listed in the tree has a
    block unless its entry is not a regular file (a link, a socket), which
    the tree pass sniffs and lists but the content pass skips. *)
Theorem sections_agree (startPath : path) (root : node) :
  has EXCLUDED_DIRS (basename startPath) = false ->
  let out := snd (processDirectory rt startPath root) in
  (forall q, In q (contentPaths out) ->
     exists p, In p (treePaths out) /\ q = relative startPath p) /\
  (walkable root = true ->
   forall p, In p (treePaths out) ->
     In (relative startPath p) (contentPaths out)
     \/ exists leaf, visible rt startPath root p leaf /\ isFile leaf = false).
Proof.
  intros Hroot. cbv zeta.
  destruct (processDirectory_sections _ startPath root
              (walkDir_emits rt root startPath startPath))
    as [Htree [Hsound Hcomplete]].
  rewrite Htree. split.
  - intros q Hq. destruct (Hsound q Hq) as [p [leaf [Hv [_ ->]]]].
    exists p. split; [|reflexivity].
    apply (generateTree_visible rt root startPath "" p Hroot). now exists leaf.
  - intros Hw p Hp.
    apply (generateTree_visible rt root startPath "" p Hroot) in Hp.
    destruct Hp as [leaf Hv]. destruct (isFile leaf) eqn:Hfile.
    + left. apply (Hcomplete Hw). now exists p, leaf.
    + right. now exists leaf.
Qed.

(** X12: at no depth does either section name the running script, a file
    of [EXCLUDED_FILES] (the output file itself among them), a file with an
    excluded extension, or a file whose extension is neither a text
    extension nor empty. *)
Theorem filtered_names_never_written (startPath : path) (root : node) (q : path) :
  let out := snd (processDirectory rt startPath root) in
  In q (treePaths out) \/ In q (contentPaths out) ->
  basename q <> getScriptName rt /\
  has EXCLUDED_FILES (basename q) = false /\
  has EXCLUDED_EXTENSIONS (toLowerCase rt (extname q)) = false /\
  (has TEXT_EXTENSIONS (toLowerCase rt (extname q)) = true
   \/ toLowerCase rt (extname q) = "").
Proof.
  cbv zeta. intros Hq.
  destruct (processDirectory_sections _ startPath root
              (walkDir_emits rt root startPath startPath))
    as [Htree [Hsound _]].
  assert (Hshould : exists f, shouldProcessFile rt q f = true).
  { destruct Hq as [Hq | Hq].
    - rewrite Htree in Hq.
      destruct (has EXCLUDED_DIRS (basename startPath)) eqn:Hroot.
      + rewrite (proj2 (generateTree_paths rt root startPath "") Hroot) in Hq.
        contradiction.
      + apply (generateTree_visible rt root startPath "" q Hroot) in Hq.
        destruct Hq as [leaf Hv]. apply visible_path in Hv.
        exists (fileOf leaf). tauto.
    - destruct (Hsound q Hq) as [p [leaf [Hv [_ ->]]]].
      apply visible_path in Hv. destruct Hv as [Hs [_ [sub [name [-> _]]]]].
      exists (fileOf leaf). rewrite relative_app.
      rewrite <- Hs. apply shouldProcessFile_basename.
      unfold basename. now rewrite app_assoc, !last_last. }
  destruct Hshould as [f Hf]. apply shouldProcessFile_true in Hf. tauto.
Qed.

End Sections.

(** ** The order of the content section *)

Section ContentOrder.

Variable rt : runtime.

Hypothesis localeCompare_total :
  forall a b, 0 < localeCompare rt a b -> localeCompare rt b a <= 0.
Hypothesis localeCompare_trans :
  forall a b c, localeCompare rt a b <= 0 -> localeCompare rt b c <= 0 ->
                localeCompare rt a c <= 0.

(** X13: in each directory the content pass first writes the blocks of the
    directory's own regular files, in alphabetical order of their
    lower-cased names, and only then the blocks of files that lie in its
    subdirectories. *)
Theorem own_files_first (startPath dir : path) (entries : list (string * node))
  (st : state) :
  exists own below,
    output (snd (walkDir rt startPath dir (Dir (Done entries)) st))
    = output st ++ own ++ below /\
    contentPaths own
    = map (fun f => relative startPath (join dir (fst f)))
        (filter (fun f => shouldProcessFile rt (join dir (fst f)) (snd f))
           (filesOf rt entries)) /\
    StronglySorted
      (fun a b => localeCompare rt (toLowerCase rt (fst a)) (toLowerCase rt (fst b)) <= 0)
      (filesOf rt entries) /\
    Permutation (map fst (filesOf rt entries))
      (map fst (filter (fun e => isFile (snd e)) entries)) /\
    (forall q, In q (contentPaths below) ->
       exists name rest,
         In name (map fst (dirsOf entries)) /\ rest <> [] /\
         q = relative startPath (dir ++ name :: rest)).
Proof.
  rewrite walkDir_unfold.
  destruct (forFiles_blocks rt startPath dir (filesOf rt entries) st) as [own [H1 P1]].
  assert (Hdirs : appends
            (fun q => exists name rest,
                 In name (map fst (dirsOf entries)) /\ rest <> [] /\
                 q = relative startPath (dir ++ name :: rest))
            (forDirs (fun subdir => walkDir rt startPath (join dir (fst subdir)) (snd subdir))
               (dirsOf entries))).
  { apply forDirs_appends. apply Forall_forall. intros e He st0.
    destruct (walkDir_paths rt (snd e) startPath (join dir (fst e)) st0)
      as [new [Hn [Pn Bn]]].
    exists new. split; [exact Hn|]. split; [|exact Bn].
    eapply Forall_impl; [|exact Pn].
    intros q [p [[sub [name [-> _]]] ->]].
    exists (fst e), (sub ++ [name]). split; [now apply in_map|].
    split; [now destruct sub|].
    unfold join. now rewrite <- app_assoc. }
  destruct (Hdirs (forFiles rt startPath dir (filesOf rt entries) st))
    as [below [H2 [P2 _]]].
  exists own, below. split; [now rewrite H2, H1, app_assoc|].
  split; [exact P1|]. split; [|split].
  - unfold filesOf.
    apply (sortBy_sorted (fun a b : string * file => compareNames rt (fst a) (fst b)));
      unfold compareNames; eauto.
  - unfold filesOf.
    eapply perm_trans; [apply Permutation_map, Permutation_sym, sortBy_perm|].
    rewrite map_map. apply Permutation_refl.
  - now apply Forall_forall.
Qed.

End ContentOrder.

(** ** Directories in the tree *)

Section TreeDirs.

Variable rt : runtime.

Lemma treeLoop_dirs (startPath : path) (prefix : string)
  (recurse : string * node -> string -> list item) (len : nat)
  (items : list (string * node)) :
  Forall (fun e => forall pre pre' b, In (TreeDir pre' b) (recurse e pre) ->
                                      has EXCLUDED_DIRS b = false) items ->
  forall i pre' b,
    In (TreeDir pre' b) (treeLoop rt _ (fun e => e) recurse startPath prefix len i items) ->
    has EXCLUDED_DIRS b = false.
Proof.
  induction 1 as [|e r He Hr IH]; intros i pre' b; cbn [treeLoop]; [contradiction|].
  intros Hin. apply in_app_or in Hin. destruct Hin as [Hin | Hin]; [|now apply (IH (S i) pre')].
  destruct (isDirectory (snd e)).
  - destruct (negb _); [exact (He _ pre' b Hin) | contradiction].
  - destruct (shouldProcessFile _ _ _); [|contradiction].
    destruct Hin as [Hin | []]. discriminate.
Qed.

Lemma generateTree_dirs (n : node) :
  forall startPath prefix pre b,
    In (TreeDir pre b) (generateTree rt startPath n prefix) ->
    has EXCLUDED_DIRS b = false.
Proof.
  induction n as [f | f | message | entries IH] using node_ind;
    intros startPath prefix pre b.
  1-3: cbn [generateTree];
       destruct (has EXCLUDED_DIRS (basename startPath)) eqn:Hroot;
       [contradiction | intros [H | [H | []]]; [injection H as _ <-; exact Hroot | discriminate]].
  rewrite generateTree_unfold.
  destruct (has EXCLUDED_DIRS (basename startPath)) eqn:Hroot; [contradiction|].
  cbv zeta. intros [H | H]; [injection H as _ <-; exact Hroot|].
  revert H. apply treeLoop_dirs. apply Forall_forall. intros e He pre0 pre1 b0.
  apply sortBy_In in He. rewrite Forall_forall in IH. apply (IH e He).
Qed.

(** X14: no line of the tree section names an excluded directory, and the
    files it lists lie in none: an excluded directory is left out whole,
    its own line included. *)
Theorem tree_leaves_out_excluded (startPath : path) (root : node) :
  let out := snd (processDirectory rt startPath root) in
  (forall prefix baseName, In (TreeDir prefix baseName) out ->
                           has EXCLUDED_DIRS baseName = false) /\
  (forall prefix dir name, In (TreeFile prefix dir name) out ->
     has EXCLUDED_DIRS (basename startPath) = false /\
     exists sub, dir = startPath ++ sub /\
                 Forall (fun d => has EXCLUDED_DIRS d = false) sub).
Proof.
  cbv zeta.
  destruct (processDirectory_layout rt startPath root)
    as [blocks [closing [Hlay [Htree [Hblocks Hend]]]]].
  assert (Hblock : forall i, In i blocks -> blockItem i).
  { clear - Hblocks. induction Hblocks; intros i Hi; cbn in Hi;
      repeat (destruct Hi as [<- | Hi]; [exact I|]); auto; contradiction. }
  assert (Hclosing : forall i, In i closing ->
                       match i with Literal _ | StreamEnd => True | _ => False end).
  { destruct (fst (processDirectory rt startPath root)); subst closing;
      intros i Hi; cbn in Hi; decompose [or] Hi; subst; try exact I; contradiction. }
  assert (Hwhere : forall i, In i (snd (processDirectory rt startPath root)) ->
                     match i with TreeDir _ _ | TreeFile _ _ _ => True | _ => False end ->
                     In i (generateTree rt startPath root "")).
  { intros i Hi Hkind. rewrite Hlay in Hi.
    repeat first [rewrite in_app_iff in Hi | progress cbn [In app] in Hi].
    decompose [or] Hi; subst; try contradiction; try assumption;
      match goal with
      | H : In i blocks |- _ => specialize (Hblock i H); now destruct i
      | H : In i closing |- _ => specialize (Hclosing i H); now destruct i
      end. }
  split.
  - intros prefix baseName Hin.
    apply (generateTree_dirs root startPath "" prefix baseName).
    now apply Hwhere.
  - intros prefix dir name Hin. apply Hwhere in Hin; [|exact I].
    destruct (has EXCLUDED_DIRS (basename startPath)) eqn:Hroot.
    + rewrite (proj2 (generateTree_paths rt root startPath "") Hroot) in Hin.
      contradiction.
    + split; [reflexivity|].
      pose proof (proj1 (generateTree_paths rt root startPath "")) as Hpaths.
      rewrite Forall_forall in Hpaths.
      assert (Hp : In (join dir name) (treePaths (generateTree rt startPath root ""))).
      { unfold treePaths. apply in_flat_map. exists (TreeFile prefix dir name).
        split; [exact Hin | now left]. }
      destruct (Hpaths _ Hp) as [sub [name' [Heq Hsub]]].
      exists sub. split; [|exact Hsub].
      unfold join in Heq. rewrite app_assoc in Heq.
      now apply app_inj_tail in Heq.
Qed.

End TreeDirs.

(** ** Extensions *)

Lemma lastDotFrom_none (s : string) :
  hasDot s = false -> forall i, lastDotFrom i s = None.
Proof.
  induction s as [|c r IH]; intros H i; cbn [lastDotFrom hasDot] in *; [reflexivity|].
  apply orb_false_elim in H. destruct H as [Hc Hr].
  now rewrite (IH Hr), Hc.
Qed.

Lemma lastDotFrom_append (stem ext : string) :
  hasDot ext = false ->
  forall i, lastDotFrom i (stem ++ String "."%char ext) = Some (i + String.length stem)%nat.
Proof.
  intros Hext. induction stem as [|c r IH]; intros i; cbn [append lastDotFrom String.length].
  - rewrite (lastDotFrom_none ext Hext). cbn. now rewrite Nat.add_0_r.
  - rewrite IH. f_equal. lia.
Qed.

Lemma substring_all (s : string) : substring 0 (String.length s) s = s.
Proof. induction s as [|c r IH]; cbn; [reflexivity | now rewrite IH]. Qed.

Lemma substring_append (stem rest : string) :
  substring (String.length stem) (String.length (stem ++ rest) - String.length stem)
    (stem ++ rest) = rest.
Proof.
  induction stem as [|c r IH]; cbn [append String.length substring].
  - rewrite Nat.sub_0_r. apply substring_all.
  - exact IH.
Qed.

Section Extensions.

Variable rt : runtime.

(** X15: a name that starts with its only dot ([.gitignore], [.env]) has
    the empty extension: unless it is the script or an excluded file, it is
    judged by the sniff alone, as a name without extension is.  The entry
    [.env] of [TEXT_EXTENSIONS] is not what admits it. *)
Theorem dotfile_is_extensionless (dir : path) (s : string) (f : file) :
  hasDot s = false ->
  toLowerCase rt "" = "" ->
  String "."%char s <> getScriptName rt ->
  has EXCLUDED_FILES (String "."%char s) = false ->
  extname (join dir (String "."%char s)) = "" /\
  shouldProcessFile rt (join dir (String "."%char s)) f = isTextFile f.
Proof.
  intros Hdot Hlower Hscript Hfile.
  assert (Hext : extname (join dir (String "."%char s)) = "").
  { unfold extname. rewrite basename_join. cbn [lastDotFrom].
    now rewrite (lastDotFrom_none s Hdot). }
  split; [exact Hext|].
  unfold shouldProcessFile. rewrite Hext, basename_join, Hlower, Hfile.
  apply String.eqb_neq in Hscript. now rewrite Hscript.
Qed.

(** X16: only the last extension of a name counts: [stem.ext], with no dot
    in [ext], has the extension [.ext] whatever dots [stem] holds, and is
    never processed when the lower-cased [.ext] is an excluded extension. *)
Theorem last_extension_decides (dir : path) (stem ext : string) (f : file) :
  stem <> "" ->
  hasDot ext = false ->
  (stem ++ String "."%char ext)%string <> ".." ->
  extname (join dir (stem ++ String "."%char ext)) = String "."%char ext /\
  (has EXCLUDED_EXTENSIONS (toLowerCase rt (String "."%char ext)) = true ->
   shouldProcessFile rt (join dir (stem ++ String "."%char ext)) f = false).
Proof.
  intros Hstem Hext Hname.
  assert (H : extname (join dir (stem ++ String "."%char ext)) = String "."%char ext).
  { unfold extname. rewrite basename_join, (lastDotFrom_append stem ext Hext).
    cbn [Nat.add].
    destruct (String.length stem) eqn:Hlen; [now destruct stem|].
    apply String.eqb_neq in Hname. rewrite Hname. cbn [Nat.eqb orb].
    rewrite <- Hlen. apply substring_append. }
  split; [exact H|]. intros Hexcl. unfold shouldProcessFile. rewrite H, Hexcl.
  now repeat match goal with |- context [if ?b then _ else _] => destruct b end.
Qed.

End Extensions.

(** ** The further statements at concrete inputs *)


Lemma stable_file_block_witness :
  exists encoding,
    (encoding = "utf8" \/ encoding = "utf16le") /\
    getFileEncoding (stableFile (js "hi")) = encoding /\
    processFile exampleRuntime ["home"; "proj"] ["home"; "proj"; "src"]
      ("a.txt", stableFile (js "hi")) emptyState
    = mkState [FileOpen ["src"; "a.txt"];
               FileContent (decode exampleRuntime encoding (js "hi")); FileClose]
        (0 + (countNewlines (decode exampleRuntime encoding (js "hi")) + 1))
        (0 + estimateTokens (decode exampleRuntime encoding (js "hi")))
        (0 + 1).
Proof.
  exact (stable_file_block exampleRuntime ["home"; "proj"] ["home"; "proj"; "src"]
           "a.txt" (js "hi") emptyState eq_refl).
Defined.

Lemma summary_counts_stream_witness :
  exists s out,
    processDirectory exampleRuntime ["home"; "proj"] mixedProject = (Done s, out) /\
    In (ErrorBlock ["gone.txt"] "EACCES: permission denied, open") out /\
    s_fileCount s = 2 /\
    s_fileCount s = Z.of_nat (List.length (contents out)) /\
    s_totalLines s = sumLines (contents out) /\
    s_totalTokens s = sumTokens (contents out).
Proof.
  eexists. eexists. split; [reflexivity|].
  split; [vm_compute; repeat first [left; reflexivity | right]|]. split; [reflexivity|].
  match goal with
  | |- s_fileCount ?s = Z.of_nat (List.length (contents ?out)) /\ _ =>
      destruct (summary_counts_stream exampleRuntime ["home"; "proj"] mixedProject
                  s out eq_refl) as [H1 [_ [H2 H3]]]
  end.
  split; [exact H1|]. split; [exact H2 | exact H3].
Defined.

Lemma mixedProject_src_visible :
  visible exampleRuntime ["home"; "proj"] mixedProject
    ["home"; "proj"; "src"; "m.js"] (textFile "m").
Proof.
  apply (visible_below exampleRuntime ["home"; "proj"] _ "src"
           (Dir (Done [("m.js", textFile "m")]))).
  - cbn. tauto.
  - reflexivity.
  - reflexivity.
  - apply (visible_entry exampleRuntime ["home"; "proj"; "src"] _ "m.js" (textFile "m")).
    + now left.
    + reflexivity.
    + reflexivity.
Qed.

Lemma tree_section_files_witness :
  has EXCLUDED_DIRS (basename ["home"; "proj"]) = false /\
  In ["home"; "proj"; "src"; "m.js"]
    (treePaths (snd (processDirectory exampleRuntime ["home"; "proj"] mixedProject))).
Proof.
  split; [reflexivity|].
  apply (proj2 (tree_section_files exampleRuntime ["home"; "proj"] mixedProject
                  ["home"; "proj"; "src"; "m.js"] eq_refl)).
  exists (textFile "m"). exact mixedProject_src_visible.
Defined.

Lemma sections_agree_witness :
  let out := snd (processDirectory exampleRuntime ["home"; "proj"] mixedProject) in
  has EXCLUDED_DIRS (basename ["home"; "proj"]) = false /\
  contentPaths out = [["b.txt"]; ["gone.txt"]; ["src"; "m.js"]] /\
  treePaths out = [["home"; "proj"; "src"; "m.js"]; ["home"; "proj"; "b.txt"];
                   ["home"; "proj"; "gone.txt"]; ["home"; "proj"; "link"]] /\
  (forall q, In q (contentPaths out) ->
     exists p, In p (treePaths out) /\ q = relative ["home"; "proj"] p).
Proof.
  cbv zeta. split; [reflexivity|]. split; [reflexivity|]. split; [reflexivity|].
  exact (proj1 (sections_agree exampleRuntime ["home"; "proj"] mixedProject eq_refl)).
Defined.

Lemma filtered_names_never_written_witness :
  In ["src"; "m.js"]
    (contentPaths (snd (processDirectory exampleRuntime ["home"; "proj"] mixedProject))) /\
  basename ["src"; "m.js"] <> getScriptName exampleRuntime /\
  has EXCLUDED_FILES (basename ["src"; "m.js"]) = false /\
  has EXCLUDED_EXTENSIONS (toLowerCase exampleRuntime (extname ["src"; "m.js"])) = false /\
  (has TEXT_EXTENSIONS (toLowerCase exampleRuntime (extname ["src"; "m.js"])) = true
   \/ toLowerCase exampleRuntime (extname ["src"; "m.js"]) = "").
Proof.
  assert (Hin : In ["src"; "m.js"]
                  (contentPaths (snd (processDirectory exampleRuntime ["home"; "proj"]
                                        mixedProject)))).
  { vm_compute. repeat first [left; reflexivity | right]. }
  split; [exact Hin|].
  exact (filtered_names_never_written exampleRuntime ["home"; "proj"] mixedProject
           ["src"; "m.js"] (or_intror Hin)).
Defined.

Lemma own_files_first_witness :
  exists own below,
    output (snd (walkDir exampleRuntime ["home"; "proj"] ["home"; "proj"]
                   mixedProject emptyState))
    = output emptyState ++ own ++ below /\
    contentPaths own = [["b.txt"]; ["gone.txt"]] /\
    contentPaths below = [["src"; "m.js"]].
Proof.
  destruct (own_files_first exampleRuntime codeCompare_total codeCompare_trans
              ["home"; "proj"] ["home"; "proj"] (match mixedProject with
                                                 | Dir (Done entries) => entries
                                                 | _ => []
                                                 end) emptyState)
    as [own [below [Hout [Hown _]]]].
  exists own, below. split; [exact Hout|].
  split; [exact Hown|].
  assert (H : contentPaths (own ++ below) = [["b.txt"]; ["gone.txt"]; ["src"; "m.js"]]).
  { change (own ++ below) with (output emptyState ++ own ++ below).
    rewrite <- Hout. reflexivity. }
  unfold contentPaths in *. rewrite flat_map_app in H. fold contentPaths in *.
  rewrite Hown in H. cbn in H. now injection H.
Defined.

Lemma dotfile_is_extensionless_witness :
  extname (join ["home"; "proj"] ".env") = "" /\
  shouldProcessFile exampleRuntime (join ["home"; "proj"] ".env") (stableFile (js "K=1"))
  = true.
Proof.
  assert (Hscript : String "."%char "env" <> getScriptName exampleRuntime)
    by discriminate.
  destruct (dotfile_is_extensionless exampleRuntime ["home"; "proj"] "env"
              (stableFile (js "K=1")) eq_refl eq_refl Hscript eq_refl) as [H1 H2].
  split; [exact H1|]. rewrite H2. reflexivity.
Defined.

Lemma last_extension_decides_witness :
  extname (join ["home"; "proj"] "notes.txt.gz") = ".gz" /\
  shouldProcessFile exampleRuntime (join ["home"; "proj"] "notes.txt.gz")
    (stableFile (js "text")) = false.
Proof.
  assert (Hstem : "notes.txt" <> "") by discriminate.
  assert (Hname : ("notes.txt" ++ String "."%char "gz")%string <> "..") by discriminate.
  destruct (last_extension_decides exampleRuntime ["home"; "proj"] "notes.txt" "gz"
              (stableFile (js "text")) Hstem eq_refl Hname) as [H1 H2].
  split; [exact H1 | exact (H2 eq_refl)].
Defined.
